(** * ImageNet-txt annotation format: the codec of
      [datumaro/plugins/imagenet_txt_format.py]

    A shallow embedding of [ImagenetTxtExtractor] (the decoder) and
    [ImagenetTxtConverter] (the encoder), and the properties of the format
    that follow from the code.

    Modelling conventions.
    - A Python [str] is a list of characters; a character is a code point
      below 256 (type [ascii]).  On that range [str.isspace] is true of
      9..13, 28..32, 133 and 160, and the only decimal digits are '0'..'9'.
    - A Python [int] is a [Z]; the limit that recent interpreters put on
      the number of digits of [int(s)] and [str(n)] is left out.
    - A Python [dict] is an association list in insertion order; storing
      under a key already present replaces the value in place.
    - An exception is a value of [PyError]; code that may raise returns
      a [Result].  [assert] statements are executed (no [-O]).
    - Files are opened in text mode: on reading, CR LF and a lone CR become LF
      and iteration yields the lines with their terminator.  [os.path] is
      [posixpath].
    - Saving the images ([_save_image]) writes other files and is left out. *)

From Stdlib Require Import String Ascii List ZArith NArith Bool Lia.
From Stdlib Require Decimal DecimalPos DecimalZ.
Import ListNotations.

Local Open Scope list_scope.
Local Open Scope Z_scope.

(** ** Characters and strings *)

Definition str := list ascii.

(** A string literal of the source. *)
Definition lit (s : string) : str := list_ascii_of_string s.

Definition chr (n : N) : ascii := ascii_of_N n.

Definition LF : ascii := Eval cbv in chr 10.
Definition CR : ascii := Eval cbv in chr 13.
Definition SPACE : ascii := Eval cbv in chr 32.
(** The double-quote character (code 34), the separator of
    [line.split] in the source. *)
Definition DQUOTE : ascii := Eval cbv in chr 34.
Definition DOT : ascii := Eval cbv in chr 46.
Definition SLASH : ascii := Eval cbv in chr 47.
Definition PLUS : ascii := Eval cbv in chr 43.
Definition MINUS : ascii := Eval cbv in chr 45.
Definition UNDERSCORE : ascii := Eval cbv in chr 95.

(** [c.isspace()] *)
Definition isspace (c : ascii) : bool :=
  let n := N_of_ascii c in
  ((9 <=? n) && (n <=? 13) || (28 <=? n) && (n <=? 32)
   || (n =? 133) || (n =? 160))%N.

(** [c in s] *)
Definition contains (c : ascii) (s : str) : bool :=
  existsb (fun x => Ascii.eqb x c) s.

(** [s.count(c)] for a one-character [c] *)
Definition count (c : ascii) (s : str) : nat :=
  length (filter (fun x => Ascii.eqb x c) s).

(** The first piece is extended by one character. *)
Definition cons_first (c : ascii) (ps : list str) : list str :=
  match ps with
  | p :: ps' => (c :: p) :: ps'
  | [] => [[c]]
  end.

(** [s.split(sep)] for a one-character separator: the pieces between the
    occurrences of [sep]; there is always at least one piece. *)
Fixpoint split_on (sep : ascii) (s : str) : list str :=
  match s with
  | [] => [[]]
  | c :: s' =>
      if Ascii.eqb c sep then [] :: split_on sep s'
      else cons_first c (split_on sep s')
  end.

(** [s.split()]: the maximal runs of non-whitespace characters. *)
Fixpoint split (s : str) : list str :=
  match s with
  | [] => []
  | c :: s' =>
      if isspace c then split s'
      else match s' with
           | d :: _ => if isspace d then [c] :: split s'
                       else cons_first c (split s')
           | [] => [[c]]
           end
  end.

Fixpoint lstrip (s : str) : str :=
  match s with
  | c :: s' => if isspace c then lstrip s' else s
  | [] => []
  end.

Definition rstrip (s : str) : str := rev (lstrip (rev s)).

(** [s.strip()] *)
Definition strip (s : str) : str := rstrip (lstrip s).

(** [sep.join(parts)] *)
Fixpoint join (sep : str) (parts : list str) : str :=
  match parts with
  | [] => []
  | [p] => p
  | p :: ps => p ++ sep ++ join sep ps
  end.

(** ** Text files *)

(** Universal-newline translation done by a file opened for reading in
    text mode. *)
Fixpoint universal_newlines (s : str) : str :=
  match s with
  | [] => []
  | c :: s' =>
      if Ascii.eqb c CR then
        LF :: match s' with
              | d :: s'' => if Ascii.eqb d LF then universal_newlines s''
                            else universal_newlines s'
              | [] => []
              end
      else c :: universal_newlines s'
  end.

(** The lines of a text, each with its terminator; the last one has none
    when the text does not end with a line break. *)
Fixpoint keepends (s : str) : list str :=
  match s with
  | [] => []
  | c :: s' =>
      if Ascii.eqb c LF then [LF] :: keepends s'
      else cons_first c (keepends s')
  end.

(** [for line in f] over a file whose content is [text]. *)
Definition file_lines (text : str) : list str :=
  keepends (universal_newlines text).

(** ** [int(s)] and [str(n)] *)

Definition digit_val (c : ascii) : option Z :=
  let n := N_of_ascii c in
  if ((48 <=? n) && (n <=? 57))%N then Some (Z.of_N n - 48) else None.

(** Decimal digits, where single underscores may stand between digits.
    [after_digit] tells whether the previous character was a digit. *)
Fixpoint parse_digits (acc : Z) (after_digit : bool) (s : str) : option Z :=
  match s with
  | [] => if after_digit then Some acc else None
  | c :: s' =>
      if Ascii.eqb c UNDERSCORE then
        if after_digit then parse_digits acc false s' else None
      else match digit_val c with
           | Some d => parse_digits (10 * acc + d) true s'
           | None => None
           end
  end.

(** [int(s)] on a string without whitespace (the tokens of [split]);
    [None] stands for [ValueError]. *)
Definition py_int (s : str) : option Z :=
  match s with
  | c :: s' =>
      if Ascii.eqb c PLUS then parse_digits 0 false s'
      else if Ascii.eqb c MINUS then option_map Z.opp (parse_digits 0 false s')
      else parse_digits 0 false s
  | [] => None
  end.

Fixpoint uint_chars (d : Decimal.uint) : str :=
  match d with
  | Decimal.Nil => []
  | Decimal.D0 d' => chr 48 :: uint_chars d'
  | Decimal.D1 d' => chr 49 :: uint_chars d'
  | Decimal.D2 d' => chr 50 :: uint_chars d'
  | Decimal.D3 d' => chr 51 :: uint_chars d'
  | Decimal.D4 d' => chr 52 :: uint_chars d'
  | Decimal.D5 d' => chr 53 :: uint_chars d'
  | Decimal.D6 d' => chr 54 :: uint_chars d'
  | Decimal.D7 d' => chr 55 :: uint_chars d'
  | Decimal.D8 d' => chr 56 :: uint_chars d'
  | Decimal.D9 d' => chr 57 :: uint_chars d'
  end.

(** [str(n)] for an [int]. *)
Definition py_str (n : Z) : str :=
  match Z.to_int n with
  | Decimal.Pos d => uint_chars d
  | Decimal.Neg d => MINUS :: uint_chars d
  end.

(** ** [os.path] *)

(** [s.rfind(c)]: the index of the last occurrence, or -1. *)
Fixpoint rfind_from (c : ascii) (s : str) (i last : Z) : Z :=
  match s with
  | [] => last
  | x :: s' => rfind_from c s' (i + 1) (if Ascii.eqb x c then i else last)
  end.

Definition rfind (c : ascii) (s : str) : Z := rfind_from c s 0 (-1).

(** [s[i:j]] for [0 <= i], [0 <= j] *)
Definition slice (s : str) (i j : Z) : str :=
  firstn (Z.to_nat (j - i)) (skipn (Z.to_nat i) s).

(** [os.path.splitext(p)] ([genericpath._splitext] with [sep = '/'],
    no [altsep], [extsep = '.']): the extension starts at the last dot of
    the last path component, unless only dots precede it there. *)
Definition splitext (p : str) : str * str :=
  let sepIndex := rfind SLASH p in
  let dotIndex := rfind DOT p in
  if (sepIndex <? dotIndex)
     && existsb (fun c => negb (Ascii.eqb c DOT)) (slice p (sepIndex + 1) dotIndex)
  then (firstn (Z.to_nat dotIndex) p, skipn (Z.to_nat dotIndex) p)
  else (p, []).

(** [os.path.basename(p)]: [p[p.rfind('/') + 1:]] *)
Definition basename (p : str) : str :=
  skipn (Z.to_nat (rfind SLASH p + 1)) p.

(** [s.startswith(c)] and [s.endswith(c)] for a one-character [c] *)
Definition startswith (c : ascii) (s : str) : bool :=
  match s with
  | x :: _ => Ascii.eqb x c
  | [] => false
  end.

Definition endswith (c : ascii) (s : str) : bool := startswith c (rev s).

(** [os.path.join(a, b)] *)
Definition path_join (a b : str) : str :=
  if startswith SLASH b then b
  else match a with
       | [] => a ++ b
       | _ => if endswith SLASH a then a ++ b else a ++ SLASH :: b
       end.

(** ** Exceptions *)

Inductive PyError : Type :=
  (** [raise Exception] of [_load_items], with the message
      Line <line>: unexpected number of quotes in filename;
      the MalformedLine error of the format. *)
  | MalformedLine (line : str)
  (** [item[0]] on an empty list *)
  | IndexError
  (** [int(id)] on a token that is not an integer literal *)
  | ValueError (token : str)
  (** the failed [assert] of [_load_items], with the message
      Image '<item_id>': unknown label id '<label>';
      the InvalidLabelId error of the format. *)
  | AssertionError (item_id : str) (label : Z).

Inductive Result (A : Type) : Type :=
  | Ok (a : A)
  | Raise (e : PyError).

Arguments Ok {A} a.
Arguments Raise {A} e.

Definition bind {A B : Type} (c : Result A) (k : A -> Result B) : Result B :=
  match c with
  | Ok a => k a
  | Raise e => Raise e
  end.

Notation "x <- c ;; k" := (bind c (fun x => k))
  (at level 61, c at next level, right associativity).

(** [l[0]] *)
Definition getitem0 {A : Type} (l : list A) : Result A :=
  match l with
  | x :: _ => Ok x
  | [] => Raise IndexError
  end.

(** [[int(id) for id in tokens]] *)
Fixpoint ints (tokens : list str) : Result (list Z) :=
  match tokens with
  | [] => Ok []
  | t :: ts =>
      match py_int t with
      | Some n => ns <- ints ts ;; Ok (n :: ns)
      | None => Raise (ValueError t)
      end
  end.

(** ** Dictionaries *)

Definition str_eq_dec : forall a b : str, {a = b} + {a <> b} :=
  list_eq_dec ascii_dec.

Definition dict (V : Type) : Type := list (str * V).

(** [d[k] = v] *)
Fixpoint dict_set {V : Type} (k : str) (v : V) (d : dict V) : dict V :=
  match d with
  | [] => [(k, v)]
  | (k', v') :: d' =>
      if str_eq_dec k' k then (k', v) :: d'
      else (k', v') :: dict_set k v d'
  end.

(** [d.get(k)] *)
Fixpoint dict_get {V : Type} (k : str) (d : dict V) : option V :=
  match d with
  | [] => None
  | (k', v') :: d' => if str_eq_dec k' k then Some v' else dict_get k d'
  end.

(** [list(d.keys())] and [list(d.values())] *)
Definition keys {V : Type} (d : dict V) : list str := map fst d.
Definition values {V : Type} (d : dict V) : list V := map snd d.

(** ** Dataset items *)

(** Modelled from the spec: the annotation classes of
    [datumaro.components.annotation], declared outside this file.  A label
    annotation holds a label id; the other kinds are all the annotations
    [p] with [p.type != AnnotationType.label]. *)
Inductive Annotation : Type :=
  | Label (label : Z)
  | OtherAnnotation.

(** Modelled from the spec: the class [DatasetItem] of
    [datumaro.components.extractor], declared outside this file, as the
    item record of the format: an id, the subset, the image path and the
    annotations.  The constructor stores its arguments, so that the key
    [item_id] of line 78 is the [id] of the item stored under it. *)
Record DatasetItem : Type := {
  id : str;
  subset : str;
  image : str;
  annotations : list Annotation
}.

Module ImagenetTxtPath.
Definition LABELS_FILE : str := lit "synsets.txt".
Definition IMAGE_DIR : str := lit "images".
End ImagenetTxtPath.

(** ** [ImagenetTxtExtractor] *)

(** The fields of [self] set by [__init__] before [_load_items] runs;
    [_categories] holds the label names of the catalog. *)
Record ImagenetTxtExtractor : Type := {
  _subset : str;
  image_dir : str;
  _categories : list str
}.

(** [_parse_labels], on the content of the labels file *)
Definition _parse_labels (text : str) : list str :=
  map strip (file_lines text).

(** Lines 55-69 of [_load_items]: from a line to
    [(item_id, image, label_ids)]. *)
Definition parse_line (line : str) : Result (str * str * list Z) :=
  let item := split_on DQUOTE line in
  if (1 <? length item)%nat then
    if (length item =? 3)%nat then
      let item_id := nth 1 item [] in
      let item := split (nth 2 item []) in
      item0 <- getitem0 item ;;
      let image := item_id ++ item0 in
      label_ids <- ints (tl item) ;;
      Ok (item_id, image, label_ids)
    else Raise (MalformedLine line)
  else
    let item := split line in
    item0 <- getitem0 item ;;
    let item_id := fst (splitext item0) in
    let image := item0 in
    label_ids <- ints (tl item) ;;
    Ok (item_id, image, label_ids).

(** Lines 71-76: every label id is checked against the catalog, in order. *)
Fixpoint check_labels (self : ImagenetTxtExtractor) (item_id : str)
    (label_ids : list Z) : Result (list Annotation) :=
  match label_ids with
  | [] => Ok []
  | label :: rest =>
      if (0 <=? label) && (label <? Z.of_nat (length (_categories self)))
      then anno <- check_labels self item_id rest ;; Ok (Label label :: anno)
      else Raise (AssertionError item_id label)
  end.

(** The body of the loop of [_load_items] for one line. *)
Definition decode_line (self : ImagenetTxtExtractor) (line : str)
    : Result DatasetItem :=
  r <- parse_line line ;;
  let '(item_id, image, label_ids) := r in
  anno <- check_labels self item_id label_ids ;;
  Ok {| id := item_id; subset := _subset self;
        image := path_join (image_dir self) image; annotations := anno |}.

Fixpoint load_lines (self : ImagenetTxtExtractor) (lines : list str)
    (items : dict DatasetItem) : Result (dict DatasetItem) :=
  match lines with
  | [] => Ok items
  | line :: rest =>
      item <- decode_line self line ;;
      load_lines self rest (dict_set (id item) item items)
  end.

(** [_load_items], on the content of the annotation file *)
Definition _load_items (self : ImagenetTxtExtractor) (text : str)
    : Result (dict DatasetItem) :=
  load_lines self (file_lines text) [].

(** [self._items] as [__init__] sets it. *)
Definition _items (self : ImagenetTxtExtractor) (text : str)
    : Result (list DatasetItem) :=
  items <- _load_items self text ;; Ok (values items).

(** ** [ImagenetTxtConverter] *)

Definition DEFAULT_IMAGE_EXT : str := lit ".jpg".

Section Converter.

(** [Converter._find_image_ext], defined outside this file: the
    extension the item's image is saved with. *)
Variable _find_image_ext : DatasetItem -> str.

(** The order in which a [set] built from these elements, in this order,
    is iterated. *)
Variable set_iter : list Z -> list Z.

(** Lines 116-119: the key of the item in [labels]. *)
Definition item_key (item : DatasetItem) : str :=
  let item_id := id item in
  let item_id :=
    if (1 <? length (split item_id))%nat
    then DQUOTE :: item_id ++ [DQUOTE] else item_id in
  item_id ++ _find_image_ext item.

(** [p.label for p in item.annotations if p.type == AnnotationType.label] *)
Definition item_labels (item : DatasetItem) : list Z :=
  flat_map (fun p => match p with Label l => [l] | OtherAnnotation => [] end)
    (annotations item).

(** Lines 114-121: the dictionary [labels] after the first loop. *)
Definition subset_labels (subset : list DatasetItem) : dict (list Z) :=
  fold_left
    (fun labels item =>
       dict_set (item_key item) (set_iter (item_labels item)) labels)
    subset [].

(** One step of the second loop: ['%s %s\n' % (item_id, ' '.join(...))]. *)
Definition annotation_line (entry : str * list Z) : str :=
  fst entry ++ SPACE :: join [SPACE] (map py_str (snd entry)) ++ [LF].

(** Lines 114-129: the text written to the annotation file of a subset. *)
Definition annotation (subset : list DatasetItem) : str :=
  concat (map annotation_line (subset_labels subset)).

(** Lines 136-139: the text written to the labels file. *)
Definition labels_file (categories : list str) : str :=
  concat (map (fun name => name ++ [LF]) categories).

(** [apply]: the files written, as pairs of a path and a content. *)
Definition apply (save_dir : str) (subsets : list (str * list DatasetItem))
    (categories : list str) : list (str * str) :=
  map (fun s => (path_join save_dir (fst s ++ lit ".txt"), annotation (snd s)))
      subsets
  ++ [(path_join save_dir ImagenetTxtPath.LABELS_FILE, labels_file categories)].

End Converter.

(** ** Notions used in the statements *)

(** The label id [l] is a position of the catalog of [self]. *)
Definition in_catalog (self : ImagenetTxtExtractor) (l : Z) : Prop :=
  0 <= l < Z.of_nat (length (_categories self)).

(** An extractor over the catalog [cat; dog], for the examples. *)
Definition cat_dog : ImagenetTxtExtractor :=
  {| _subset := lit "train";
     image_dir := lit "images";
     _categories := [lit "cat"; lit "dog"] |}.

(** [s] between double quotes *)
Definition quoted (s : str) : str := DQUOTE :: s ++ [DQUOTE].

(** The distinct elements of [l], in the order of their first occurrence;
    [seen] holds the elements met so far. *)
Fixpoint first_occurrences_from (seen l : list str) : list str :=
  match l with
  | [] => []
  | x :: l' =>
      if in_dec str_eq_dec x seen then first_occurrences_from seen l'
      else x :: first_occurrences_from (seen ++ [x]) l'
  end.

Definition first_occurrences (l : list str) : list str :=
  first_occurrences_from [] l.

(** The last item of [items] whose id is [k]. *)
Fixpoint last_with_id (k : str) (items : list DatasetItem)
    : option DatasetItem :=
  match items with
  | [] => None
  | item :: rest =>
      match last_with_id k rest with
      | Some found => Some found
      | None => if str_eq_dec (id item) k then Some item else None
      end
  end.

(** [s] neither starts nor ends with a whitespace character. *)
Definition no_surrounding_space (s : str) : Prop :=
  match s with c :: _ => isspace c = false | [] => True end /\
  match rev s with c :: _ => isspace c = false | [] => True end.

(** An item of the subset [train] with one label, for the examples. *)
Definition labelled_item (item_id filename : string) (label : Z) : DatasetItem :=
  {| id := lit item_id; subset := lit "train";
     image := lit filename; annotations := [Label label] |}.

(** [s] has a character that is not whitespace. *)
Definition has_nonspace (s : str) : bool :=
  existsb (fun c => negb (isspace c)) s.

(** [s] has no whitespace character. *)
Definition no_space (s : str) : bool :=
  forallb (fun c => negb (isspace c)) s.

(** [s] has a character other than the dot. *)
Definition has_non_dot (s : str) : bool :=
  existsb (fun c => negb (Ascii.eqb c DOT)) s.

(** The reading of the final extension as the last dot segment: the token
    up to its last dot, or the whole token when it has no dot. *)
Definition strip_last_dot_segment (token : str) : str :=
  if rfind DOT token <? 0 then token
  else firstn (Z.to_nat (rfind DOT token)) token.

(** The characters of [str(n)]: a decimal digit or the minus sign. *)
Definition is_label_char (c : ascii) : bool :=
  match digit_val c with
  | Some _ => true
  | None => Ascii.eqb c MINUS
  end.

(** [c] is neither the double quote nor a line break. *)
Definition is_plain (c : ascii) : bool :=
  negb (Ascii.eqb c DQUOTE) && negb (Ascii.eqb c LF) && negb (Ascii.eqb c CR).

(** An extension the format carries: a dot followed by characters other
    than the dot, the slash, the double quote and whitespace. *)
Definition wf_ext (ext : str) : bool :=
  match ext with
  | c :: e =>
      Ascii.eqb c DOT && negb (contains DOT e) && negb (contains SLASH e)
      && negb (contains DQUOTE e) && no_space e
  | [] => false
  end.

(** An item id the format carries: no double quote and no line break in
    it; and either it has more than one whitespace token (then it is
    written between quotes), or it has no whitespace at all and its last
    path component has a character other than the dot (then [splitext]
    recovers it from the filename). *)
Definition representable_id (item_id : str) : bool :=
  negb (contains DQUOTE item_id) && negb (contains LF item_id)
  && negb (contains CR item_id)
  && ((1 <? length (split item_id))%nat
      || no_space item_id && has_non_dot (basename item_id)).

Section RoundTripNotions.

Variable _find_image_ext : DatasetItem -> str.
Variable set_iter : list Z -> list Z.

(** The items the round trip is stated for. *)
Definition encodable (self : ImagenetTxtExtractor) (item : DatasetItem) : bool :=
  representable_id (id item) && wf_ext (_find_image_ext item)
  && forallb (fun l => (0 <=? l) && (l <? Z.of_nat (length (_categories self))))
       (item_labels item).

(** What an encoded item is decoded to. *)
Definition decoded (self : ImagenetTxtExtractor) (item : DatasetItem)
    : DatasetItem :=
  {| id := id item;
     subset := _subset self;
     image := path_join (image_dir self) (id item ++ _find_image_ext item);
     annotations := map Label (set_iter (item_labels item)) |}.

End RoundTripNotions.

(** An item of the subset [train] without image, for the examples. *)
Definition item_with (item_id : str) (anns : list Annotation) : DatasetItem :=
  {| id := item_id; subset := lit "train"; image := []; annotations := anns |}.

(** An encoder for the examples: every image is saved with the default
    extension, and a set is iterated in the order [nodup] gives. *)
Definition default_ext (item : DatasetItem) : str := DEFAULT_IMAGE_EXT.
Definition nodup_iter (l : list Z) : list Z := nodup Z.eq_dec l.

(** ** The rest of the module: paths, [__init__] and the importer *)

(** [s.rstrip(c)] for a one-character [c] *)
Fixpoint lstrip_char (c : ascii) (s : str) : str :=
  match s with
  | x :: s' => if Ascii.eqb x c then lstrip_char c s' else s
  | [] => []
  end.

Definition rstrip_char (c : ascii) (s : str) : str :=
  rev (lstrip_char c (rev s)).

(** [os.path.dirname(p)]: the text up to the last slash, without its
    trailing slashes unless it is made of slashes only. *)
Definition dirname (p : str) : str :=
  let head := firstn (Z.to_nat (rfind SLASH p + 1)) p in
  match head with
  | [] => head
  | _ => if forallb (fun c => Ascii.eqb c SLASH) head then head
         else rstrip_char SLASH head
  end.

(** The files a run can read: the content of each regular file, by path;
    paths are compared as strings. *)
Definition files : Type := str -> option str.

(** [open(path, 'w').write(content)] for each pair, in order. *)
Definition write_files (writes : list (str * str)) (fs : files) : files :=
  fold_left
    (fun fs w p => if str_eq_dec p (fst w) then Some (snd w) else fs p)
    writes fs.

(** The argument [labels] of [__init__]: absent, the name of a labels
    file, or the label names themselves. *)
Inductive LabelsArg : Type :=
  | LabelsNone
  | LabelsFileName (name : str)
  | LabelsList (names : list str).

Inductive InitError : Type :=
  (** [assert osp.isfile(path), path] *)
  | NotAFile (path : str)
  (** [open] of a labels file that is not there *)
  | CannotOpen (path : str)
  (** an exception of [_load_items] *)
  | LoadFailed (e : PyError).

Inductive InitResult : Type :=
  | Built (self : ImagenetTxtExtractor) (items : list DatasetItem)
  | InitFailed (e : InitError).

(** [x or default] for a string or [None] *)
Definition or_default (x : option str) (default : str) : str :=
  match x with
  | Some (c :: s) => c :: s
  | _ => default
  end.

(** [ImagenetTxtExtractor.__init__] (lines 21-40) over the files [fs]:
    the extractor and its [_items].  [SourceExtractor.__init__], outside
    this file, is given a non-empty subset name and keeps it;
    [_load_categories] keeps the names in their order. *)
Definition __init__ (fs : files) (path : str) (labels : LabelsArg)
    (image_dir subset : option str) : InitResult :=
  match fs path with
  | None => InitFailed (NotAFile path)
  | Some text =>
      let subset := or_default subset (fst (splitext (basename path))) in
      let image_dir := or_default image_dir ImagenetTxtPath.IMAGE_DIR in
      let image_dir := path_join (dirname path) image_dir in
      let read_labels name :=
        let labels_path :=
          path_join (dirname path) (or_default name ImagenetTxtPath.LABELS_FILE) in
        match fs labels_path with
        | Some labels_text => inl (_parse_labels labels_text)
        | None => inr (CannotOpen labels_path)
        end in
      let labels :=
        match labels with
        | LabelsNone => read_labels None
        | LabelsFileName name => read_labels (Some name)
        | LabelsList names => inl names
        end in
      match labels with
      | inr e => InitFailed e
      | inl names =>
          let self := {| _subset := subset; image_dir := image_dir;
                         _categories := names |} in
          match _items self text with
          | Ok items => Built self items
          | Raise e => InitFailed (LoadFailed e)
          end
      end
  end.



(** The last item of [items] whose key, for the extensions [ext_of], is
    [k]. *)
Fixpoint last_with_key (ext_of : DatasetItem -> str) (k : str)
    (items : list DatasetItem) : option DatasetItem :=
  match items with
  | [] => None
  | item :: rest =>
      match last_with_key ext_of k rest with
      | Some found => Some found
      | None => if str_eq_dec (item_key ext_of item) k then Some item else None
      end
  end.


(** * Properties *)

(** ** Splitting on a separator *)

Lemma split_on_nonempty (sep : ascii) (s : str) : split_on sep s <> [].
Proof. destruct s as [|c s]; simpl; [|destruct (Ascii.eqb c sep)];
  try discriminate. destruct (split_on sep s); discriminate. Qed.

Lemma cons_first_length (c : ascii) (ps : list str) :
  ps <> [] -> length (cons_first c ps) = length ps.
Proof. destruct ps; [congruence | reflexivity]. Qed.

(** The number of pieces is the number of separators plus one. *)
Lemma split_on_length (sep : ascii) (s : str) :
  length (split_on sep s) = S (count sep s).
Proof.
  unfold count. induction s as [|c s IH]; simpl; [reflexivity|].
  destruct (Ascii.eqb c sep); simpl.
  - now rewrite IH.
  - rewrite cons_first_length by apply split_on_nonempty. exact IH.
Qed.

Lemma count_app (c : ascii) (a b : str) :
  count c (a ++ b) = (count c a + count c b)%nat.
Proof. unfold count. now rewrite filter_app, length_app. Qed.

Lemma count_cons_sep (c : ascii) (s : str) :
  count c (c :: s) = S (count c s).
Proof. unfold count. simpl. now rewrite Ascii.eqb_refl. Qed.

Lemma contains_count (c : ascii) (s : str) :
  contains c s = false <-> count c s = 0%nat.
Proof.
  unfold contains, count. induction s as [|x s IH]; simpl; [tauto|].
  destruct (Ascii.eqb x c); simpl; [split; discriminate | exact IH].
Qed.

Lemma contains_false_In (c : ascii) (s : str) :
  contains c s = false <-> ~ In c s.
Proof.
  unfold contains. split.
  - intros H Hin. assert (existsb (fun x => Ascii.eqb x c) s = true).
    { apply existsb_exists. exists c. split; [assumption | apply Ascii.eqb_refl]. }
    congruence.
  - intros H. destruct (existsb _ s) eqn:E; [|reflexivity].
    apply existsb_exists in E as (x & Hin & Hx). apply Ascii.eqb_eq in Hx.
    subst. contradiction.
Qed.

Lemma split_on_absent (sep : ascii) (s : str) :
  contains sep s = false -> split_on sep s = [s].
Proof.
  unfold contains. induction s as [|c s IH]; simpl; [reflexivity|].
  destruct (Ascii.eqb c sep); simpl; [discriminate|].
  intros H. now rewrite IH.
Qed.

Lemma split_on_first (sep : ascii) (a b : str) :
  contains sep a = false ->
  split_on sep (a ++ sep :: b) = a :: split_on sep b.
Proof.
  unfold contains. induction a as [|c a IH]; simpl.
  - now rewrite Ascii.eqb_refl.
  - destruct (Ascii.eqb c sep); simpl; [discriminate|].
    intros H. now rewrite IH.
Qed.

(** A string splits into the part before the first separator and the rest. *)
Lemma split_first_sep (sep : ascii) (s : str) :
  contains sep s = true ->
  exists a b, s = a ++ sep :: b /\ contains sep a = false.
Proof.
  unfold contains. induction s as [|c s IH]; simpl; [discriminate|].
  destruct (Ascii.eqb c sep) eqn:E; simpl.
  - intros _. apply Ascii.eqb_eq in E. subst. now exists [], s.
  - intros H. destruct (IH H) as (a & b & -> & Ha).
    exists (c :: a), b. simpl. now rewrite E.
Qed.

(** Exactly three pieces: the line is [p0 ++ sep :: p1 ++ sep :: p2]. *)
Lemma split_on_three (sep : ascii) (s : str) :
  length (split_on sep s) = 3%nat ->
  exists p0 p1 p2,
    s = p0 ++ sep :: p1 ++ sep :: p2 /\
    contains sep p0 = false /\ contains sep p1 = false /\
    contains sep p2 = false /\ split_on sep s = [p0; p1; p2].
Proof.
  intros H. rewrite split_on_length in H.
  assert (H0 : contains sep s = true).
  { destruct (contains sep s) eqn:E; [reflexivity|].
    apply contains_count in E. lia. }
  destruct (split_first_sep _ _ H0) as (p0 & r & -> & Hp0).
  rewrite count_app in H. apply contains_count in Hp0 as Hc0.
  assert (Hr : count sep r = 1%nat).
  { rewrite count_cons_sep in H. lia. }
  assert (H1 : contains sep r = true).
  { destruct (contains sep r) eqn:E; [reflexivity|].
    apply contains_count in E. lia. }
  destruct (split_first_sep _ _ H1) as (p1 & p2 & -> & Hp1).
  rewrite count_app in Hr. apply contains_count in Hp1 as Hc1.
  assert (Hp2 : contains sep p2 = false).
  { apply contains_count. rewrite count_cons_sep in Hr. lia. }
  exists p0, p1, p2. repeat split; try assumption.
  rewrite split_on_first by assumption. rewrite split_on_first by assumption.
  now rewrite split_on_absent.
Qed.

(** ** The shape of the errors *)

Lemma ints_raise (tokens : list str) (e : PyError) :
  ints tokens = Raise e -> exists t, In t tokens /\ e = ValueError t.
Proof.
  induction tokens as [|t ts IH]; simpl; [discriminate|].
  destruct (py_int t).
  - destruct (ints ts); simpl; [discriminate|].
    intros [= <-]. destruct (IH eq_refl) as (t' & ? & ?). eauto.
  - intros [= <-]. eauto.
Qed.

Lemma check_labels_raise self item_id label_ids e :
  check_labels self item_id label_ids = Raise e ->
  exists l, In l label_ids /\ e = AssertionError item_id l /\
            ~ (0 <= l < Z.of_nat (length (_categories self))).
Proof.
  induction label_ids as [|l ls IH]; simpl; [discriminate|].
  destruct (0 <=? l) eqn:E1; destruct (l <? _) eqn:E2; simpl;
    try (intros [= <-]; exists l; repeat split; auto; lia).
  destruct (check_labels self item_id ls); simpl; [discriminate|].
  intros [= <-]. destruct (IH eq_refl) as (l' & ? & ? & ?). eauto.
Qed.

Lemma check_labels_ok self item_id label_ids :
  Forall (fun l => 0 <= l < Z.of_nat (length (_categories self))) label_ids ->
  check_labels self item_id label_ids = Ok (map Label label_ids).
Proof.
  induction 1 as [|l ls Hl _ IH]; simpl; [reflexivity|].
  replace (0 <=? l) with true by (symmetry; apply Z.leb_le; lia).
  replace (l <? _) with true by (symmetry; apply Z.ltb_lt; lia).
  simpl. now rewrite IH.
Qed.

(** ** Quote-count validation *)

Lemma parse_line_unquoted (line : str) :
  count DQUOTE line = 0%nat ->
  parse_line line =
    (item0 <- getitem0 (split line) ;;
     label_ids <- ints (tl (split line)) ;;
     Ok (fst (splitext item0), item0, label_ids)).
Proof.
  intros H. unfold parse_line. rewrite split_on_length, H. reflexivity.
Qed.

Lemma parse_line_quoted (p0 p1 p2 : str) :
  contains DQUOTE p0 = false -> contains DQUOTE p1 = false ->
  contains DQUOTE p2 = false ->
  parse_line (p0 ++ DQUOTE :: p1 ++ DQUOTE :: p2) =
    (item0 <- getitem0 (split p2) ;;
     label_ids <- ints (tl (split p2)) ;;
     Ok (p1, p1 ++ item0, label_ids)).
Proof.
  intros H0 H1 H2. unfold parse_line.
  rewrite split_on_first, split_on_first, split_on_absent by assumption.
  reflexivity.
Qed.

Lemma parse_line_bad_quotes (line : str) :
  count DQUOTE line <> 0%nat -> count DQUOTE line <> 2%nat ->
  parse_line line = Raise (MalformedLine line).
Proof.
  intros H0 H2. unfold parse_line. rewrite split_on_length.
  destruct (count DQUOTE line) as [|[|[|n]]]; try congruence; reflexivity.
Qed.

(** In the two branches that parse, the only errors are [IndexError] and
    [ValueError]. *)
Lemma parse_tokens_raise (tokens : list str) (f : str -> str * str) e :
  (item0 <- getitem0 tokens ;;
   label_ids <- ints (tl tokens) ;;
   Ok (fst (f item0), snd (f item0), label_ids)) = Raise e ->
  e = IndexError \/ exists t, e = ValueError t.
Proof.
  destruct tokens as [|t ts]; simpl; [intros [= <-]; now left|].
  destruct (ints ts) eqn:E; simpl; [discriminate|].
  intros [= <-]. apply ints_raise in E as (t' & _ & ->). eauto.
Qed.

Lemma parse_line_malformed (line l : str) :
  parse_line line = Raise (MalformedLine l) ->
  l = line /\ count DQUOTE line <> 0%nat /\ count DQUOTE line <> 2%nat.
Proof.
  intros H.
  destruct (Nat.eq_dec (count DQUOTE line) 0) as [E0|E0].
  { rewrite parse_line_unquoted in H by assumption.
    apply (parse_tokens_raise _ (fun t => (fst (splitext t), t))) in H.
    destruct H as [H|[t H]]; discriminate. }
  destruct (Nat.eq_dec (count DQUOTE line) 2) as [E2|E2].
  { assert (H3 : length (split_on DQUOTE line) = 3%nat)
      by (rewrite split_on_length; lia).
    destruct (split_on_three _ _ H3) as (p0 & p1 & p2 & -> & ? & ? & ? & _).
    rewrite parse_line_quoted in H by assumption.
    apply (parse_tokens_raise _ (fun t => (p1, p1 ++ t))) in H.
    destruct H as [H|[t H]]; discriminate. }
  rewrite parse_line_bad_quotes in H by assumption.
  injection H as <-. auto.
Qed.

Lemma decode_line_malformed self (line l : str) :
  decode_line self line = Raise (MalformedLine l) <->
  l = line /\ count DQUOTE line <> 0%nat /\ count DQUOTE line <> 2%nat.
Proof.
  unfold decode_line. split.
  - destruct (parse_line line) as [[[item_id image] label_ids]|e] eqn:E; simpl.
    + destruct (check_labels self item_id label_ids) eqn:C; simpl;
        [discriminate|].
      intros [= ->]. apply check_labels_raise in C as (? & _ & C & _).
      discriminate.
    + intros [= ->]. now apply parse_line_malformed.
  - intros (-> & H0 & H2). now rewrite parse_line_bad_quotes.
Qed.

Lemma load_lines_app self (l1 l2 : list str) items :
  load_lines self (l1 ++ l2) items =
    (d <- load_lines self l1 items ;; load_lines self l2 d).
Proof.
  revert items. induction l1 as [|line l1 IH]; intros items; simpl;
    [reflexivity|].
  destruct (decode_line self line); simpl; [apply IH | reflexivity].
Qed.

(** C3 (as amended).  Decoding a line raises the MalformedLine error
    exactly when splitting the line on the double quote does not yield 1 or
    3 pieces, that is, exactly when the number of double-quote characters of
    the line is neither 0 nor 2; the error carries the line verbatim.  For 0
    or 2 double quotes no MalformedLine error is raised. *)
Theorem malformed_line_iff (self : ImagenetTxtExtractor) (line : str) :
  (decode_line self line = Raise (MalformedLine line) <->
   ~ (length (split_on DQUOTE line) = 1 \/ length (split_on DQUOTE line) = 3)%nat)
  /\
  (decode_line self line = Raise (MalformedLine line) <->
   ~ (count DQUOTE line = 0 \/ count DQUOTE line = 2)%nat)
  /\
  (forall l, decode_line self line = Raise (MalformedLine l) -> l = line).
Proof.
  rewrite split_on_length. repeat split.
  - intros H. apply decode_line_malformed in H. lia.
  - intros H. apply decode_line_malformed. repeat split; lia.
  - intros H. apply decode_line_malformed in H. lia.
  - intros H. apply decode_line_malformed. repeat split; lia.
  - intros l H. now apply decode_line_malformed in H.
Qed.

(** C3 (as stated) fails: a line without any double quote has a quote
    count outside {1, 3} and decodes without error, while lines with one and
    with three double quotes have a quote count in {1, 3} and raise the
    MalformedLine error. *)
Lemma malformed_line_quote_count_counterexample :
  (count DQUOTE (lit "a.jpg 0") = 0%nat /\
   decode_line cat_dog (lit "a.jpg 0") =
     Ok {| id := lit "a"; subset := lit "train";
           image := lit "images/a.jpg"; annotations := [Label 0] |})
  /\
  (count DQUOTE (lit "a" ++ DQUOTE :: lit ".jpg 0") = 1%nat /\
   decode_line cat_dog (lit "a" ++ DQUOTE :: lit ".jpg 0") =
     Raise (MalformedLine (lit "a" ++ DQUOTE :: lit ".jpg 0")))
  /\
  (count DQUOTE (quoted (lit "a b") ++ DQUOTE :: lit ".jpg 0") = 3%nat /\
   decode_line cat_dog (quoted (lit "a b") ++ DQUOTE :: lit ".jpg 0") =
     Raise (MalformedLine (quoted (lit "a b") ++ DQUOTE :: lit ".jpg 0"))).
Proof. repeat split; vm_compute; reflexivity. Qed.

(** C4.  A line with exactly one double quote, or with four or more,
    fails with the MalformedLine error carrying the line; and a file one of
    whose lines is such a line is never decoded into a collection: if the
    lines before it decode, the error raised is the MalformedLine error of
    that line. *)
Theorem one_or_many_quotes_rejected (self : ImagenetTxtExtractor) (line : str) :
  (count DQUOTE line = 1 \/ 4 <= count DQUOTE line)%nat ->
  decode_line self line = Raise (MalformedLine line) /\
  (forall before after items d,
     load_lines self (before ++ line :: after) items <> Ok d) /\
  (forall before after items d,
     load_lines self before items = Ok d ->
     load_lines self (before ++ line :: after) items =
       Raise (MalformedLine line)).
Proof.
  intros H.
  assert (E : decode_line self line = Raise (MalformedLine line))
    by (apply decode_line_malformed; repeat split; lia).
  split; [exact E|]. split.
  - intros before after items d. rewrite load_lines_app.
    destruct (load_lines self before items); simpl; [|discriminate].
    rewrite E. discriminate.
  - intros before after items d Hb. rewrite load_lines_app, Hb. simpl.
    now rewrite E.
Qed.

Lemma one_or_many_quotes_rejected_witness :
  (count DQUOTE (lit "a" ++ DQUOTE :: lit ".jpg 0") = 1 \/
   4 <= count DQUOTE (lit "a" ++ DQUOTE :: lit ".jpg 0"))%nat /\
  decode_line cat_dog (lit "a" ++ DQUOTE :: lit ".jpg 0") =
    Raise (MalformedLine (lit "a" ++ DQUOTE :: lit ".jpg 0")).
Proof.
  split; [left; reflexivity|].
  apply (one_or_many_quotes_rejected cat_dog (lit "a" ++ DQUOTE :: lit ".jpg 0")).
  left; reflexivity.
Defined.

(** C10.  With exactly two double quotes, the text before the first one is
    discarded: two lines that differ only there decode to the same result,
    of [parse_line] and of the whole loop body. *)
Theorem text_before_first_quote_discarded
    (self : ImagenetTxtExtractor) (p1 p2 rest : str) :
  contains DQUOTE p1 = false -> contains DQUOTE p2 = false ->
  count DQUOTE rest = 1%nat ->
  parse_line (p1 ++ DQUOTE :: rest) = parse_line (p2 ++ DQUOTE :: rest) /\
  decode_line self (p1 ++ DQUOTE :: rest) =
    decode_line self (p2 ++ DQUOTE :: rest).
Proof.
  intros H1 H2 Hr.
  assert (Hc : contains DQUOTE rest = true).
  { destruct (contains DQUOTE rest) eqn:E; [reflexivity|].
    apply contains_count in E. lia. }
  destruct (split_first_sep _ _ Hc) as (item_id & tail & -> & Hid).
  assert (Ht : contains DQUOTE tail = false).
  { apply contains_count. rewrite count_app, count_cons_sep in Hr. lia. }
  assert (E : parse_line (p1 ++ DQUOTE :: item_id ++ DQUOTE :: tail) =
              parse_line (p2 ++ DQUOTE :: item_id ++ DQUOTE :: tail))
    by now rewrite !parse_line_quoted.
  split; [exact E|]. unfold decode_line. now rewrite E.
Qed.

Lemma text_before_first_quote_discarded_witness :
  contains DQUOTE (lit "junk 7 ") = false /\ contains DQUOTE [] = false /\
  count DQUOTE (lit "my cat" ++ DQUOTE :: lit ".jpg 0 1") = 1%nat /\
  decode_line cat_dog (lit "junk 7 " ++ quoted (lit "my cat") ++ lit ".jpg 0 1") =
    decode_line cat_dog (quoted (lit "my cat") ++ lit ".jpg 0 1").
Proof.
  split; [reflexivity|]. split; [reflexivity|]. split; [reflexivity|].
  apply (text_before_first_quote_discarded cat_dog (lit "junk 7 ") []
           (lit "my cat" ++ DQUOTE :: lit ".jpg 0 1")); reflexivity.
Defined.

(** ** The label-id bound check *)

Lemma check_labels_ok_inv self item_id label_ids anno :
  check_labels self item_id label_ids = Ok anno ->
  Forall (in_catalog self) label_ids /\ anno = map Label label_ids.
Proof.
  revert anno. induction label_ids as [|l ls IH]; simpl; intros anno.
  - intros [= <-]. auto.
  - destruct (0 <=? l) eqn:E1; destruct (l <? _) eqn:E2; simpl;
      try discriminate.
    destruct (check_labels self item_id ls) as [a|]; simpl; [|discriminate].
    intros [= <-]. destruct (IH a eq_refl) as [HF ->]. split; [|reflexivity].
    constructor; [|assumption]. unfold in_catalog.
    apply Z.leb_le in E1. apply Z.ltb_lt in E2. lia.
Qed.

Lemma check_labels_first_bad self item_id pre l post :
  Forall (in_catalog self) pre -> ~ in_catalog self l ->
  check_labels self item_id (pre ++ l :: post) = Raise (AssertionError item_id l).
Proof.
  unfold in_catalog. intros Hpre Hl.
  induction Hpre as [|x pre Hx _ IH]; simpl.
  - destruct (0 <=? l) eqn:E1; destruct (l <? _) eqn:E2; simpl;
      try reflexivity.
    apply Z.leb_le in E1. apply Z.ltb_lt in E2. lia.
  - replace (0 <=? x) with true by (symmetry; apply Z.leb_le; lia).
    replace (x <? _) with true by (symmetry; apply Z.ltb_lt; lia).
    simpl. now rewrite IH.
Qed.

(** C5.  Once the tokens of a line are parsed into label ids, the line is
    accepted exactly when every id satisfies [0 <= id < len(catalog)], and
    then every id becomes a label annotation; otherwise the first id out of
    the bound raises the InvalidLabelId error, which names the item id and
    that id.  In particular an id equal to the size of the catalog is
    rejected. *)
Theorem label_id_bound_check (self : ImagenetTxtExtractor)
    (line item_id image : str) (label_ids : list Z) :
  parse_line line = Ok (item_id, image, label_ids) ->
  (Forall (in_catalog self) label_ids ->
   decode_line self line =
     Ok {| id := item_id; subset := _subset self;
           image := path_join (image_dir self) image;
           annotations := map Label label_ids |})
  /\
  (forall pre l post,
     label_ids = pre ++ l :: post ->
     Forall (in_catalog self) pre -> ~ in_catalog self l ->
     decode_line self line = Raise (AssertionError item_id l))
  /\
  (forall l, In l label_ids -> ~ in_catalog self l ->
     exists l', In l' label_ids /\ ~ in_catalog self l' /\
       decode_line self line = Raise (AssertionError item_id l'))
  /\
  (In (Z.of_nat (length (_categories self))) label_ids ->
     exists l', ~ in_catalog self l' /\
       decode_line self line = Raise (AssertionError item_id l')).
Proof.
  intros Hp. unfold decode_line. rewrite Hp. simpl.
  assert (Hany : forall l, In l label_ids -> ~ in_catalog self l ->
     exists l', In l' label_ids /\ ~ in_catalog self l' /\
       (anno <- check_labels self item_id label_ids ;;
        Ok {| id := item_id; subset := _subset self;
              image := path_join (image_dir self) image;
              annotations := anno |}) = Raise (AssertionError item_id l')).
  { intros l Hin Hl.
    destruct (check_labels self item_id label_ids) as [anno|e] eqn:E.
    - apply check_labels_ok_inv in E as [HF _].
      rewrite Forall_forall in HF. elim Hl. auto.
    - apply check_labels_raise in E as (l' & Hin' & -> & Hl').
      exists l'. auto. }
  repeat split.
  - intros HF. now rewrite check_labels_ok.
  - intros pre l post -> Hpre Hl. now rewrite check_labels_first_bad.
  - exact Hany.
  - intros Hin. destruct (Hany _ Hin) as (l' & _ & Hl' & E).
    + unfold in_catalog. lia.
    + eauto.
Qed.

Lemma label_id_bound_check_witness :
  parse_line (lit "a.jpg 1 2") = Ok (lit "a", lit "a.jpg", [1; 2]) /\
  decode_line cat_dog (lit "a.jpg 1 2") = Raise (AssertionError (lit "a") 2).
Proof.
  split; [reflexivity|].
  apply (label_id_bound_check cat_dog (lit "a.jpg 1 2") (lit "a") (lit "a.jpg")
           [1; 2] eq_refl) with (pre := [1]) (post := []).
  - reflexivity.
  - repeat constructor; unfold in_catalog; simpl; lia.
  - unfold in_catalog; simpl; lia.
Defined.

(** ** The ordered collection of decoded items *)

Lemma keys_dict_set {V : Type} (k : str) (v : V) (d : dict V) :
  keys (dict_set k v d) =
    if in_dec str_eq_dec k (keys d) then keys d else keys d ++ [k].
Proof.
  unfold keys. induction d as [|[k' v'] d IH]; simpl; [reflexivity|].
  destruct (str_eq_dec k' k) as [->|Hne]; simpl; [reflexivity|].
  rewrite IH. destruct (in_dec str_eq_dec k (map fst d)); reflexivity.
Qed.

Lemma dict_get_set {V : Type} (k k' : str) (v : V) (d : dict V) :
  dict_get k (dict_set k' v d) =
    if str_eq_dec k' k then Some v else dict_get k d.
Proof.
  induction d as [|[k0 v0] d IH]; simpl.
  - reflexivity.
  - destruct (str_eq_dec k0 k') as [->|Hne]; simpl.
    + destruct (str_eq_dec k' k); reflexivity.
    + rewrite IH. destruct (str_eq_dec k0 k) as [->|]; [|reflexivity].
      destruct (str_eq_dec k' k); congruence.
Qed.

(** The loop, once every line is known to decode. *)
Lemma load_lines_decoded self lines items d0 :
  Forall2 (fun line item => decode_line self line = Ok item) lines items ->
  load_lines self lines d0 =
    Ok (fold_left (fun d item => dict_set (id item) item d) items d0).
Proof.
  intros H. revert d0. induction H as [|line item lines items Hd _ IH];
    intros d0; simpl; [reflexivity|].
  rewrite Hd. simpl. apply IH.
Qed.

Lemma keys_fold_dict_set (items : list DatasetItem) (d0 : dict DatasetItem) :
  keys (fold_left (fun d item => dict_set (id item) item d) items d0) =
    keys d0 ++ first_occurrences_from (keys d0) (map id items).
Proof.
  revert d0. induction items as [|item items IH]; intros d0; simpl.
  - now rewrite app_nil_r.
  - rewrite IH, keys_dict_set.
    destruct (in_dec str_eq_dec (id item) (keys d0)); [reflexivity|].
    now rewrite <- app_assoc.
Qed.

Lemma dict_get_fold_dict_set (k : str) (items : list DatasetItem)
    (d0 : dict DatasetItem) :
  dict_get k (fold_left (fun d item => dict_set (id item) item d) items d0) =
    match last_with_id k items with
    | Some found => Some found
    | None => dict_get k d0
    end.
Proof.
  revert d0. induction items as [|item items IH]; intros d0; simpl;
    [reflexivity|].
  rewrite IH. destruct (last_with_id k items); [reflexivity|].
  rewrite dict_get_set. destruct (str_eq_dec (id item) k); reflexivity.
Qed.

Lemma first_occurrences_from_spec (seen l : list str) :
  NoDup seen ->
  NoDup (seen ++ first_occurrences_from seen l) /\
  (forall x, In x (seen ++ first_occurrences_from seen l) <->
             In x seen \/ In x l).
Proof.
  revert seen. induction l as [|x l IH]; intros seen Hs; simpl.
  - rewrite app_nil_r. split; [assumption | tauto].
  - destruct (in_dec str_eq_dec x seen) as [Hin|Hnin].
    + destruct (IH seen Hs) as [Hn He]. split; [assumption|].
      intros y. rewrite He. intuition subst; auto.
    + assert (Hs' : NoDup (seen ++ [x])).
      { apply NoDup_app; [assumption | repeat constructor; simpl; tauto |].
        intros y Hy [<-|[]]. contradiction. }
      destruct (IH (seen ++ [x]) Hs') as [Hn He].
      rewrite <- app_assoc in Hn, He. simpl in Hn, He.
      split; [assumption|]. intros y. rewrite He, in_app_iff. simpl. tauto.
Qed.

(** C6.  When every line decodes, the collection returned by the loop
    holds each item id once, at the position of its first occurrence among
    the lines, with the item of the last line that has this id. *)
Theorem overwrite_in_place (self : ImagenetTxtExtractor)
    (lines : list str) (items : list DatasetItem) :
  Forall2 (fun line item => decode_line self line = Ok item) lines items ->
  exists d,
    load_lines self lines [] = Ok d /\
    keys d = first_occurrences (map id items) /\
    NoDup (keys d) /\
    (forall k, In k (keys d) <-> In k (map id items)) /\
    (forall k, dict_get k d = last_with_id k items).
Proof.
  intros H. eexists. split; [apply load_lines_decoded; exact H|].
  pose proof (keys_fold_dict_set items []) as K. simpl in K.
  destruct (first_occurrences_from_spec [] (map id items) (NoDup_nil _))
    as [Hn He]. simpl in Hn, He.
  repeat split.
  - exact K.
  - now rewrite K.
  - rewrite K. intros Hk. apply He in Hk. tauto.
  - rewrite K. intros Hk. apply He. tauto.
  - intros k. rewrite dict_get_fold_dict_set.
    destruct (last_with_id k items); reflexivity.
Qed.

(** The example of ids a, b, a: the order is a, b and the item of a is
    the one of the third line. *)
Lemma overwrite_in_place_witness :
  let lines := [lit "a.jpg 0"; lit "b.jpg 1"; lit "a.png 1"] in
  let items := [labelled_item "a" "images/a.jpg" 0;
                labelled_item "b" "images/b.jpg" 1;
                labelled_item "a" "images/a.png" 1] in
  Forall2 (fun line item => decode_line cat_dog line = Ok item) lines items /\
  exists d,
    load_lines cat_dog lines [] = Ok d /\
    keys d = [lit "a"; lit "b"] /\
    dict_get (lit "a") d = Some (labelled_item "a" "images/a.png" 1).
Proof.
  intros lines items.
  assert (H : Forall2 (fun line item => decode_line cat_dog line = Ok item)
                lines items) by (repeat constructor).
  split; [exact H|].
  destruct (overwrite_in_place cat_dog lines items H)
    as (d & Hd & Hk & _ & _ & Hg).
  exists d. split; [exact Hd|]. split; [exact Hk|]. apply Hg.
Defined.

(** The scenario of the format description: the catalog [cat; dog] and
    three lines, the third with the id of the first. *)
Lemma literal_scenario :
  _items cat_dog
    (lit "img001.jpg 0" ++ LF ::
     quoted (lit "two words") ++ lit ".png 1 0" ++ LF ::
     lit "img001.jpg 1" ++ [LF]) =
    Ok [labelled_item "img001" "images/img001.jpg" 1;
        {| id := lit "two words"; subset := lit "train";
           image := lit "images/two words.png";
           annotations := [Label 1; Label 0] |}].
Proof. reflexivity. Qed.

(** ** Text files *)

Lemma universal_newlines_no_CR (s : str) :
  ~ In CR s -> universal_newlines s = s.
Proof.
  induction s as [|c s IH]; simpl; [reflexivity|]. intros H.
  destruct (Ascii.eqb c CR) eqn:E.
  - apply Ascii.eqb_eq in E. tauto.
  - rewrite IH; tauto.
Qed.

Lemma keepends_line (body rest : str) :
  ~ In LF body -> keepends (body ++ LF :: rest) = (body ++ [LF]) :: keepends rest.
Proof.
  induction body as [|c body IH]; simpl; [reflexivity|]. intros H.
  destruct (Ascii.eqb c LF) eqn:E.
  - apply Ascii.eqb_eq in E. tauto.
  - rewrite IH by tauto. reflexivity.
Qed.

(** A text made of terminated lines is read back line by line. *)
Lemma file_lines_concat (bodies : list str) :
  Forall (fun b => ~ In LF b /\ ~ In CR b) bodies ->
  file_lines (concat (map (fun b => b ++ [LF]) bodies)) =
    map (fun b => b ++ [LF]) bodies.
Proof.
  intros H. unfold file_lines. rewrite universal_newlines_no_CR.
  - induction H as [|b bs [Hb _] _ IH]; simpl; [reflexivity|].
    rewrite <- app_assoc. simpl. rewrite keepends_line by assumption.
    now rewrite IH.
  - intros Hin. apply in_concat in Hin as (l & Hl & Hin).
    apply in_map_iff in Hl as (b & <- & Hb).
    rewrite Forall_forall in H. apply H in Hb as [_ Hb].
    apply in_app_iff in Hin as [Hin|[Hin|[]]]; [tauto | discriminate].
Qed.

(** ** The label catalog *)

Lemma lstrip_length (s : str) : (length (lstrip s) <= length s)%nat.
Proof.
  induction s as [|c s IH]; simpl; [lia|].
  destruct (isspace c); simpl; lia.
Qed.

Lemma strip_fixed_iff (s : str) : strip s = s <-> no_surrounding_space s.
Proof.
  unfold strip, rstrip, no_surrounding_space. split.
  - intros H. apply (f_equal (@length ascii)) in H as HL.
    rewrite length_rev in HL.
    pose proof (lstrip_length (rev (lstrip s))) as L1.
    pose proof (lstrip_length s) as L2. rewrite length_rev in L1.
    assert (Hhead : match s with c :: _ => isspace c = false | [] => True end).
    { destruct s as [|c s']; [exact I|]. simpl in *.
      destruct (isspace c); [|reflexivity].
      pose proof (lstrip_length s'). lia. }
    split; [exact Hhead|].
    assert (E : lstrip s = s).
    { destruct s as [|c s']; [reflexivity|]. simpl. now rewrite Hhead. }
    rewrite E in *. destruct (rev s) as [|c r] eqn:Er; [exact I|].
    simpl in *. destruct (isspace c); [|reflexivity].
    pose proof (lstrip_length r).
    apply (f_equal (@length ascii)) in Er. rewrite length_rev in Er.
    simpl in Er. lia.
  - intros [Hh Hl].
    assert (E : lstrip s = s).
    { destruct s as [|c s']; [reflexivity|]. simpl. now rewrite Hh. }
    rewrite E. destruct (rev s) as [|c r] eqn:Er.
    + simpl. apply (f_equal (@rev ascii)) in Er.
      now rewrite rev_involutive in Er.
    + simpl. rewrite Hl, <- Er. apply rev_involutive.
Qed.

Lemma strip_line (name : str) :
  no_surrounding_space name -> strip (name ++ [LF]) = name.
Proof.
  unfold strip, rstrip. intros [Hh Hl].
  destruct name as [|c name']; [reflexivity|].
  assert (E : lstrip ((c :: name') ++ [LF]) = (c :: name') ++ [LF])
    by (simpl; now rewrite Hh).
  rewrite E, rev_app_distr.
  change (lstrip (rev [LF] ++ rev (c :: name')))
    with (lstrip (rev (c :: name'))).
  remember (rev (c :: name')) as r eqn:Er. destruct r as [|z r].
  - apply (f_equal (@length ascii)) in Er. rewrite length_rev in Er.
    discriminate.
  - simpl. rewrite Hl, Er. apply rev_involutive.
Qed.

(** C8 (as amended).  The labels file holds each name followed by a line
    terminator, in catalog order; reading takes one name per line, stripped.
    For a catalog whose names have no surrounding whitespace and no
    line-break character (LF or CR), reading back what [apply] wrote yields
    the same names at the same positions. *)
Theorem catalog_round_trip (names : list str) :
  Forall (fun n => strip n = n /\ ~ In LF n /\ ~ In CR n) names ->
  file_lines (labels_file names) = map (fun n => n ++ [LF]) names /\
  _parse_labels (labels_file names) = names /\
  (forall i, nth_error (_parse_labels (labels_file names)) i = nth_error names i).
Proof.
  intros H.
  assert (HL : file_lines (labels_file names) = map (fun n => n ++ [LF]) names).
  { apply file_lines_concat. eapply Forall_impl; [|exact H].
    simpl. tauto. }
  assert (HP : _parse_labels (labels_file names) = names).
  { unfold _parse_labels. rewrite HL, map_map. clear HL.
    induction H as [|n ns (Hn & _ & _) _ IH]; simpl; [reflexivity|].
    rewrite strip_line by (now apply strip_fixed_iff). now f_equal. }
  split; [exact HL|]. split; [exact HP|]. intros i. now rewrite HP.
Qed.

Lemma catalog_round_trip_witness :
  Forall (fun n => strip n = n /\ ~ In LF n /\ ~ In CR n)
    [lit "cat"; lit "hot dog"; lit ""; lit "cat"] /\
  _parse_labels (labels_file [lit "cat"; lit "hot dog"; lit ""; lit "cat"]) =
    [lit "cat"; lit "hot dog"; lit ""; lit "cat"].
Proof.
  assert (H : Forall (fun n => strip n = n /\ ~ In LF n /\ ~ In CR n)
                [lit "cat"; lit "hot dog"; lit ""; lit "cat"]).
  { repeat constructor; try reflexivity;
      apply contains_false_In; reflexivity. }
  split; [exact H|].
  apply (catalog_round_trip [lit "cat"; lit "hot dog"; lit ""; lit "cat"] H).
Defined.

(** C8 (as stated) fails: a name with a line break inside has no
    surrounding whitespace, and is read back as two names. *)
Lemma catalog_round_trip_counterexample :
  strip (lit "a" ++ LF :: lit "b") = lit "a" ++ LF :: lit "b" /\
  labels_file [lit "a" ++ LF :: lit "b"] = lit "a" ++ LF :: lit "b" ++ [LF] /\
  _parse_labels (labels_file [lit "a" ++ LF :: lit "b"]) = [lit "a"; lit "b"] /\
  _parse_labels (labels_file [lit "a" ++ LF :: lit "b"]) <>
    [lit "a" ++ LF :: lit "b"].
Proof. repeat split; vm_compute; discriminate. Qed.

(** ** Blank lines *)

Lemma split_blank (s : str) : forallb isspace s = true -> split s = [].
Proof.
  induction s as [|c s IH]; simpl; [reflexivity|].
  destruct (isspace c); simpl; [exact IH | discriminate].
Qed.

Lemma blank_no_quote (s : str) :
  forallb isspace s = true -> count DQUOTE s = 0%nat.
Proof.
  intros H. apply contains_count, contains_false_In. intros Hin.
  rewrite forallb_forall in H. apply H in Hin. discriminate.
Qed.

(** C9 (the code at the failing input).  A line of whitespace only, such
    as the empty line that ends a file with a trailing blank line, makes
    [item[0]] raise [IndexError]; the loop is left by this exception, so
    that the items of the lines before it are lost, although the same file
    without the blank line decodes. *)
Theorem blank_line_index_error :
  (forall self line,
     forallb isspace line = true -> decode_line self line = Raise IndexError)
  /\
  (forall self lines items,
     load_lines self (lines ++ [[LF]]) items =
       match load_lines self lines items with
       | Ok _ => Raise IndexError
       | Raise e => Raise e
       end)
  /\
  _load_items cat_dog (lit "a.jpg 0" ++ [LF; LF]) = Raise IndexError
  /\
  _load_items cat_dog (lit "a.jpg 0" ++ [LF]) =
    Ok [(lit "a", labelled_item "a" "images/a.jpg" 0)].
Proof.
  assert (B : forall self line,
     forallb isspace line = true -> decode_line self line = Raise IndexError).
  { intros self line H. unfold decode_line.
    rewrite parse_line_unquoted by (now apply blank_no_quote).
    now rewrite split_blank. }
  split; [exact B|]. split; [|split; reflexivity].
  intros self lines items. rewrite load_lines_app.
  destruct (load_lines self lines items) as [d|e]; [|reflexivity].
  cbn [bind load_lines]. now rewrite (B self [LF] eq_refl).
Qed.

(** ** Splitting on whitespace *)

Lemma split_nonspace_head (c : ascii) (s : str) :
  isspace c = false -> split (c :: s) <> [].
Proof.
  intros H. simpl. rewrite H. destruct s as [|d s]; [discriminate|].
  destruct (isspace d); [discriminate|].
  destruct (split (d :: s)); discriminate.
Qed.

Lemma split_nil_iff (s : str) : split s = [] <-> has_nonspace s = false.
Proof.
  unfold has_nonspace. induction s as [|c s IH]; [simpl; tauto|].
  destruct (isspace c) eqn:E.
  - simpl. rewrite E. simpl. exact IH.
  - split; intros H.
    + now apply split_nonspace_head in H.
    + simpl in H. rewrite E in H. discriminate.
Qed.

(** A whitespace character separates the tokens on its two sides. *)
Lemma split_app_space (a b : str) (w : ascii) :
  isspace w = true -> split (a ++ w :: b) = split a ++ split b.
Proof.
  intros Hw. induction a as [|x a IH].
  - simpl. now rewrite Hw.
  - change ((x :: a) ++ w :: b) with (x :: (a ++ w :: b)).
    cbn [split]. destruct (isspace x) eqn:Ex; [exact IH|].
    destruct a as [|d a'].
    + simpl. now rewrite Hw.
    + change ((d :: a') ++ w :: b) with (d :: (a' ++ w :: b)) in *.
      cbv iota. destruct (isspace d) eqn:Ed.
      * rewrite IH. reflexivity.
      * rewrite IH. pose proof (split_nonspace_head d a' Ed) as Hne.
        destruct (split (d :: a')); [congruence | reflexivity].
Qed.

Lemma split_no_space (t : str) :
  t <> [] -> no_space t = true -> split t = [t].
Proof.
  unfold no_space. induction t as [|c t IH]; [congruence|]. intros _ H.
  simpl in H. apply andb_prop in H as [Hc Ht].
  apply negb_true_iff in Hc. cbn [split]. rewrite Hc.
  destruct t as [|d t']; [reflexivity|].
  assert (Hd : isspace d = false).
  { simpl in Ht. apply andb_prop in Ht as [Hd _]. now apply negb_true_iff. }
  rewrite Hd, IH by (congruence || assumption). reflexivity.
Qed.

Lemma split_token_space (t rest : str) (w : ascii) :
  t <> [] -> no_space t = true -> isspace w = true ->
  split (t ++ w :: rest) = t :: split rest.
Proof.
  intros Ht Hn Hw. now rewrite split_app_space, split_no_space.
Qed.

(** More than one token: some whitespace stands between two
    non-whitespace characters. *)
Lemma split_many_iff (s : str) :
  (1 < length (split s))%nat <->
  exists a w b, s = a ++ w :: b /\ isspace w = true /\
                has_nonspace a = true /\ has_nonspace b = true.
Proof.
  split.
  - induction s as [|c s IH]; [simpl; lia|].
    destruct (isspace c) eqn:Ec.
    + simpl. rewrite Ec. intros H.
      destruct (IH H) as (a & w & b & -> & Hw & Ha & Hb).
      exists (c :: a), w, b. repeat split; try assumption.
      unfold has_nonspace in *. simpl. now rewrite Ha, orb_true_r.
    + intros H. destruct (no_space (c :: s)) eqn:En.
      { rewrite split_no_space in H by (congruence || assumption).
        simpl in H. lia. }
      clear IH.
      assert (D : exists a w b, c :: s = a ++ w :: b /\ isspace w = true /\
                                no_space a = true /\ a <> []).
      { clear H. revert c Ec En. induction s as [|d s IH]; intros c Ec En.
        - unfold no_space in En. simpl in En. rewrite Ec in En. discriminate.
        - destruct (isspace d) eqn:Ed.
          + exists [c], d, s. unfold no_space. simpl. rewrite Ec.
            repeat split; auto. discriminate.
          + destruct (IH d Ed) as (a & w & b & E & Hw & Ha & _).
            { unfold no_space in *. simpl in *. rewrite Ec in En. exact En. }
            exists (c :: a), w, b. rewrite E. unfold no_space in *. simpl.
            rewrite Ec, Ha. repeat split; auto. discriminate. }
      destruct D as (a & w & b & E & Hw & Ha & Hne).
      rewrite E in H |- *. rewrite split_token_space in H by assumption.
      exists a, w, b. repeat split; try assumption.
      * destruct a as [|x a]; [congruence|]. unfold has_nonspace, no_space in *.
        simpl in *. apply andb_prop in Ha as [Hx _]. now rewrite Hx.
      * destruct (has_nonspace b) eqn:Eb; [reflexivity|].
        apply split_nil_iff in Eb. rewrite Eb in H. simpl in H. lia.
  - intros (a & w & b & -> & Hw & Ha & Hb). rewrite split_app_space by assumption.
    rewrite length_app.
    destruct (split a) eqn:Ea; [apply split_nil_iff in Ea; congruence|].
    destruct (split b) eqn:Eb; [apply split_nil_iff in Eb; congruence|].
    simpl. lia.
Qed.

Lemma split_leading_space (w s : str) :
  forallb isspace w = true -> split (w ++ s) = split s.
Proof.
  induction w as [|c w IH]; simpl; [reflexivity|].
  destruct (isspace c); simpl; [exact IH | discriminate].
Qed.

Lemma split_trailing_space (s w : str) :
  forallb isspace w = true -> split (s ++ w) = split s.
Proof.
  destruct w as [|c w]; simpl; [now rewrite app_nil_r|].
  intros H. apply andb_prop in H as [Hc Hw].
  now rewrite split_app_space, (split_blank w), app_nil_r.
Qed.

(** ** The quoting rule of the encoder *)

Section Quoting.

Variable _find_image_ext : DatasetItem -> str.

(** C7 (as amended).  The encoder wraps the item id in double quotes if
    and only if splitting the id on whitespace yields more than one token,
    that is, if and only if some whitespace character of the id stands
    between two non-whitespace characters; an id without whitespace, and an
    id whose only whitespace is at its ends, is left unquoted.  The
    extension is then appended directly to the (possibly quoted) id. *)
Theorem quoting_rule (item : DatasetItem) :
  item_key _find_image_ext item =
    (if (1 <? length (split (id item)))%nat then quoted (id item) else id item)
    ++ _find_image_ext item
  /\
  ((1 <? length (split (id item)))%nat = true <->
   exists a w b, id item = a ++ w :: b /\ isspace w = true /\
                 has_nonspace a = true /\ has_nonspace b = true)
  /\
  (no_space (id item) = true ->
   item_key _find_image_ext item = id item ++ _find_image_ext item)
  /\
  (forall w1 t w2,
     id item = w1 ++ t ++ w2 ->
     forallb isspace w1 = true -> forallb isspace w2 = true ->
     no_space t = true ->
     item_key _find_image_ext item = id item ++ _find_image_ext item).
Proof.
  assert (E : forall w1 t w2,
     id item = w1 ++ t ++ w2 ->
     forallb isspace w1 = true -> forallb isspace w2 = true ->
     no_space t = true ->
     item_key _find_image_ext item = id item ++ _find_image_ext item).
  { intros w1 t w2 Hid H1 H2 Ht. unfold item_key.
    replace (split (id item)) with (split t)
      by (now rewrite Hid, split_leading_space, split_trailing_space).
    destruct t as [|c t]; [reflexivity|].
    rewrite split_no_space by (congruence || assumption). reflexivity. }
  split; [reflexivity|]. split; [|split].
  - rewrite Nat.ltb_lt. apply split_many_iff.
  - intros H. apply (E [] (id item) []); try reflexivity; try assumption.
    simpl. now rewrite app_nil_r.
  - exact E.
Qed.

End Quoting.

Lemma quoting_rule_witness :
  no_space (lit "cat_0001") = true /\
  item_key (fun _ => DEFAULT_IMAGE_EXT) (labelled_item "cat_0001" "x.png" 0) =
    lit "cat_0001.jpg".
Proof.
  split; [reflexivity|].
  apply (quoting_rule (fun _ => DEFAULT_IMAGE_EXT)
           (labelled_item "cat_0001" "x.png" 0)). reflexivity.
Defined.

(** C7 (as stated) fails: these ids contain a whitespace character and
    are not wrapped in double quotes, while an id with whitespace between
    two words is. *)
Lemma quoting_rule_counterexample :
  (existsb isspace (lit " a") = true /\
   item_key (fun _ => DEFAULT_IMAGE_EXT) (labelled_item " a" "x.png" 0) =
     lit " a.jpg")
  /\
  (existsb isspace (lit "a ") = true /\
   item_key (fun _ => DEFAULT_IMAGE_EXT) (labelled_item "a " "x.png" 0) =
     lit "a .jpg")
  /\
  (existsb isspace (lit "a b") = true /\
   item_key (fun _ => DEFAULT_IMAGE_EXT) (labelled_item "a b" "x.png" 0) =
     quoted (lit "a b") ++ lit ".jpg").
Proof. repeat split. Qed.

(** ** [rfind] and [splitext] *)

Lemma rfind_from_app (c : ascii) (a b : str) (i last : Z) :
  rfind_from c (a ++ b) i last =
    rfind_from c b (i + Z.of_nat (length a)) (rfind_from c a i last).
Proof.
  revert i last. induction a as [|x a IH]; intros i last.
  - simpl. now rewrite Z.add_0_r.
  - cbn [app rfind_from length]. rewrite IH. f_equal. lia.
Qed.

Lemma rfind_from_absent (c : ascii) (s : str) (i last : Z) :
  ~ In c s -> rfind_from c s i last = last.
Proof.
  revert i last. induction s as [|x s IH]; intros i last H; [reflexivity|].
  cbn [rfind_from]. destruct (Ascii.eqb x c) eqn:E.
  - apply Ascii.eqb_eq in E. subst. elim H. now left.
  - apply IH. intros Hin. apply H. now right.
Qed.

Lemma rfind_from_bounds (c : ascii) (s : str) (i last : Z) :
  last < i ->
  last <= rfind_from c s i last < i + Z.of_nat (length s).
Proof.
  revert i last. induction s as [|x s IH]; intros i last H.
  - simpl. lia.
  - cbn [rfind_from length]. destruct (Ascii.eqb x c).
    + specialize (IH (i + 1) i). lia.
    + specialize (IH (i + 1) last). lia.
Qed.

Lemma rfind_bounds (c : ascii) (s : str) :
  -1 <= rfind c s < Z.of_nat (length s).
Proof. unfold rfind. pose proof (rfind_from_bounds c s 0 (-1)). lia. Qed.

Lemma rfind_last (c : ascii) (a b : str) :
  ~ In c b -> rfind c (a ++ c :: b) = Z.of_nat (length a).
Proof.
  intros H. unfold rfind. rewrite rfind_from_app. cbn [rfind_from].
  rewrite Ascii.eqb_refl. now rewrite rfind_from_absent.
Qed.

Lemma rfind_app_absent (c : ascii) (a b : str) :
  ~ In c b -> rfind c (a ++ b) = rfind c a.
Proof.
  intros H. unfold rfind. rewrite rfind_from_app. now apply rfind_from_absent.
Qed.

(** A path is its directory part followed by its last component. *)
Lemma basename_split (p : str) :
  p = firstn (Z.to_nat (rfind SLASH p + 1)) p ++ basename p /\
  length (firstn (Z.to_nat (rfind SLASH p + 1)) p) =
    Z.to_nat (rfind SLASH p + 1).
Proof.
  unfold basename. split; [symmetry; apply firstn_skipn|].
  apply firstn_length_le. pose proof (rfind_bounds SLASH p). lia.
Qed.

(** The extension is split off after a last component that has a
    character other than the dot. *)
Lemma splitext_ext (root e : str) :
  ~ In DOT e -> ~ In SLASH e -> has_non_dot (basename root) = true ->
  splitext (root ++ DOT :: e) = (root, DOT :: e).
Proof.
  intros Hd Hs Hb. unfold splitext.
  assert (Es : rfind SLASH (root ++ DOT :: e) = rfind SLASH root).
  { apply rfind_app_absent. intros [H|H]; [discriminate | tauto]. }
  rewrite Es, rfind_last by assumption.
  pose proof (rfind_bounds SLASH root) as B.
  replace (rfind SLASH root <? Z.of_nat (length root)) with true
    by (symmetry; apply Z.ltb_lt; lia).
  assert (E : slice (root ++ DOT :: e) (rfind SLASH root + 1)
                (Z.of_nat (length root)) = basename root).
  { unfold slice, basename.
    remember (Z.to_nat (rfind SLASH root + 1)) as n eqn:En.
    assert (Hn : (n <= length root)%nat) by lia.
    rewrite skipn_app.
    replace (n - length root)%nat with 0%nat by lia. simpl skipn at 2.
    rewrite firstn_app.
    replace (Z.to_nat (Z.of_nat (length root) - (rfind SLASH root + 1)))
      with (length (skipn n root)) by (rewrite length_skipn; lia).
    rewrite firstn_all, Nat.sub_diag. simpl. apply app_nil_r. }
  rewrite E. unfold has_non_dot in Hb. rewrite Hb. simpl.
  rewrite Nat2Z.id.
  rewrite firstn_app, Nat.sub_diag, firstn_all. simpl. rewrite app_nil_r.
  rewrite skipn_app, Nat.sub_diag, skipn_all. reflexivity.
Qed.

Lemma existsb_repeat_dot (n : nat) : has_non_dot (repeat DOT n) = false.
Proof. induction n; simpl; auto. Qed.

(** Nothing is split off when the last component has its dots at its
    start only (or has none). *)
Lemma splitext_none (p rest : str) (n : nat) :
  basename p = repeat DOT n ++ rest -> ~ In DOT rest ->
  splitext p = (p, []).
Proof.
  intros Hb Hr. unfold splitext.
  destruct (basename_split p) as [Hp Hl].
  remember (firstn (Z.to_nat (rfind SLASH p + 1)) p) as dir eqn:Ed.
  pose proof (rfind_bounds SLASH p) as B.
  destruct n as [|m].
  - simpl in Hb. rewrite Hb in Hp.
    assert (E : rfind DOT p = rfind DOT dir)
      by (rewrite Hp at 1; now apply rfind_app_absent).
    pose proof (rfind_bounds DOT dir) as Bd.
    replace (rfind SLASH p <? rfind DOT p) with false; [reflexivity|].
    symmetry. apply Z.ltb_ge. lia.
  - assert (Hb' : basename p = repeat DOT m ++ DOT :: rest).
    { rewrite Hb. change (DOT :: rest) with ([DOT] ++ rest).
      rewrite app_assoc. f_equal.
      clear. induction m; simpl; [reflexivity | now f_equal]. }
    assert (E : rfind DOT p = Z.of_nat (length dir + m)).
    { rewrite Hp at 1. rewrite Hb', app_assoc, rfind_last by assumption.
      now rewrite length_app, repeat_length. }
    assert (S : slice p (rfind SLASH p + 1) (rfind DOT p) = repeat DOT m).
    { unfold slice. fold (basename p). rewrite Hb', E.
      replace (Z.to_nat (Z.of_nat (length dir + m) - (rfind SLASH p + 1)))
        with (length (repeat DOT m)) by (rewrite repeat_length; lia).
      rewrite firstn_app, Nat.sub_diag, firstn_all. simpl. apply app_nil_r. }
    rewrite S. fold (has_non_dot (repeat DOT m)).
    rewrite existsb_repeat_dot, andb_false_r. reflexivity.
Qed.

(** ** [int] inverts [str] *)

Lemma parse_digits_digit (acc k : Z) (b : bool) (c : ascii) (s : str) :
  Ascii.eqb c UNDERSCORE = false -> digit_val c = Some k ->
  parse_digits acc b (c :: s) = parse_digits (10 * acc + k) true s.
Proof. intros H1 H2. cbn [parse_digits]. now rewrite H1, H2. Qed.

Lemma parse_digits_acc (d : Decimal.uint) (acc : positive) :
  parse_digits (Zpos acc) true (uint_chars d) =
    Some (Zpos (Pos.of_uint_acc d acc)).
Proof.
  revert acc. induction d as [|d IH|d IH|d IH|d IH|d IH|d IH|d IH|d IH|d IH|d IH];
    intros acc; [reflexivity|..];
    cbn [uint_chars Pos.of_uint_acc];
    erewrite parse_digits_digit by reflexivity;
    rewrite <- IH; f_equal;
    try (match goal with
         | |- context [Z.of_N ?n - 48] =>
             let v := eval vm_compute in (Z.of_N n - 48) in
             change (Z.of_N n - 48) with v
         end; lia).
Qed.

Lemma parse_digits_uint (d : Decimal.uint) :
  parse_digits 0 true (uint_chars d) = Some (Z.of_N (Pos.of_uint d)).
Proof.
  induction d as [|d IH|d IH|d IH|d IH|d IH|d IH|d IH|d IH|d IH|d IH];
    [reflexivity | ..];
    cbn [uint_chars Pos.of_uint];
    erewrite parse_digits_digit by reflexivity;
    [exact IH | apply (parse_digits_acc d) ..].
Qed.

Lemma py_int_uint_chars (d : Decimal.uint) :
  d <> Decimal.Nil ->
  py_int (uint_chars d) = Some (Z.of_N (Pos.of_uint d)) /\
  parse_digits 0 false (uint_chars d) = Some (Z.of_N (Pos.of_uint d)).
Proof.
  intros H. rewrite <- parse_digits_uint.
  destruct d; [congruence | split; reflexivity ..].
Qed.

Lemma to_uint_not_Nil (p : positive) : Pos.to_uint p <> Decimal.Nil.
Proof.
  intros H. pose proof (DecimalPos.Unsigned.of_to p) as E.
  rewrite H in E. discriminate.
Qed.

Lemma py_int_py_str (n : Z) : py_int (py_str n) = Some n.
Proof.
  destruct n as [|p|p]; [reflexivity|..]; unfold py_str; cbn [Z.to_int].
  - destruct (py_int_uint_chars _ (to_uint_not_Nil p)) as [E _].
    now rewrite E, DecimalPos.Unsigned.of_to.
  - cbn [py_int]. change (Ascii.eqb MINUS PLUS) with false.
    change (Ascii.eqb MINUS MINUS) with true. cbv iota.
    destruct (py_int_uint_chars _ (to_uint_not_Nil p)) as [_ E].
    now rewrite E, DecimalPos.Unsigned.of_to.
Qed.

Lemma ints_py_str (label_ids : list Z) :
  ints (map py_str label_ids) = Ok label_ids.
Proof.
  induction label_ids as [|l ls IH]; simpl; [reflexivity|].
  now rewrite py_int_py_str, IH.
Qed.

Lemma uint_chars_label (d : Decimal.uint) :
  forallb is_label_char (uint_chars d) = true.
Proof. induction d; simpl; auto. Qed.

Lemma py_str_label (n : Z) : forallb is_label_char (py_str n) = true.
Proof.
  unfold py_str. destruct (Z.to_int n); [|simpl]; apply uint_chars_label.
Qed.

Lemma py_str_nonempty (n : Z) : py_str n <> [].
Proof.
  intros H. pose proof (py_int_py_str n) as E. rewrite H in E. discriminate.
Qed.

Lemma label_char_plain (c : ascii) :
  is_label_char c = true -> isspace c = false /\ is_plain c = true.
Proof.
  destruct c as [[] [] [] [] [] [] [] []]; intros H;
    try discriminate H; split; reflexivity.
Qed.

(** ** The quote-count dispatch *)

(** C2 (as amended).  When splitting the line on the double quote yields
    one piece, the line is split on whitespace, the first token is the
    image filename, the item id is the root given by [os.path.splitext] for
    that token, and the other tokens are parsed as integers.  When it yields
    three pieces, the second piece is the item id, the image filename is the
    id followed directly by the first whitespace token of the third piece,
    and the other tokens of the third piece are parsed as integers.
    [splitext] strips the text from the last dot of the last path component
    on, when a character other than the dot precedes that dot in the
    component; otherwise it strips nothing. *)
Theorem quote_count_dispatch :
  (forall line,
     length (split_on DQUOTE line) = 1%nat ->
     parse_line line =
       (token <- getitem0 (split line) ;;
        label_ids <- ints (tl (split line)) ;;
        Ok (fst (splitext token), token, label_ids)))
  /\
  (forall line,
     length (split_on DQUOTE line) = 3%nat ->
     let piece i := nth i (split_on DQUOTE line) [] in
     parse_line line =
       (token <- getitem0 (split (piece 2%nat)) ;;
        label_ids <- ints (tl (split (piece 2%nat))) ;;
        Ok (piece 1%nat, piece 1%nat ++ token, label_ids)))
  /\
  (forall root e,
     ~ In DOT e -> ~ In SLASH e -> has_non_dot (basename root) = true ->
     fst (splitext (root ++ DOT :: e)) = root)
  /\
  (forall token n rest,
     basename token = repeat DOT n ++ rest -> ~ In DOT rest ->
     fst (splitext token) = token).
Proof.
  repeat split.
  - intros line H. apply parse_line_unquoted.
    rewrite split_on_length in H. lia.
  - intros line H piece. subst piece.
    destruct (split_on_three _ _ H) as (p0 & p1 & p2 & -> & ? & ? & ? & E).
    rewrite E. now apply parse_line_quoted.
  - intros root e Hd Hs Hb. now rewrite splitext_ext.
  - intros token n rest Hb Hr. now rewrite (splitext_none token rest n).
Qed.

Lemma quote_count_dispatch_witness :
  (length (split_on DQUOTE (lit "cat_0001.jpg 0 3")) = 1%nat /\
   parse_line (lit "cat_0001.jpg 0 3") =
     Ok (lit "cat_0001", lit "cat_0001.jpg", [0; 3]))
  /\
  (length (split_on DQUOTE (quoted (lit "my cat") ++ lit ".jpg 0 1")) = 3%nat /\
   parse_line (quoted (lit "my cat") ++ lit ".jpg 0 1") =
     Ok (lit "my cat", lit "my cat.jpg", [0; 1])).
Proof.
  destruct quote_count_dispatch as (H1 & H3 & _ & _).
  split; (split; [reflexivity|]).
  - exact (H1 (lit "cat_0001.jpg 0 3") eq_refl).
  - exact (H3 (quoted (lit "my cat") ++ lit ".jpg 0 1") eq_refl).
Defined.

(** C2 (as stated) fails: the item id is not always the token without
    its last dot segment.  A token that starts with its only dot, and a
    token whose last dot is in a directory part, are kept whole. *)
Lemma quote_count_dispatch_counterexample :
  (length (split_on DQUOTE (lit ".jpg 0")) = 1%nat /\
   parse_line (lit ".jpg 0") = Ok (lit ".jpg", lit ".jpg", [0]) /\
   strip_last_dot_segment (lit ".jpg") = lit "")
  /\
  (length (split_on DQUOTE (lit "v1.0/cat 0")) = 1%nat /\
   parse_line (lit "v1.0/cat 0") = Ok (lit "v1.0/cat", lit "v1.0/cat", [0]) /\
   strip_last_dot_segment (lit "v1.0/cat") = lit "v1").
Proof. repeat split. Qed.

(** ** Dictionaries with distinct keys *)

Lemma dict_set_fresh {V : Type} (k : str) (v : V) (d : dict V) :
  ~ In k (keys d) -> dict_set k v d = d ++ [(k, v)].
Proof.
  unfold keys. induction d as [|[k' v'] d IH]; simpl; [reflexivity|].
  intros H. destruct (str_eq_dec k' k) as [->|_]; [tauto|].
  rewrite IH; tauto.
Qed.

Lemma fold_dict_set_fresh {A V : Type} (key : A -> str) (val : A -> V)
    (xs : list A) (d0 : dict V) :
  NoDup (keys d0 ++ map key xs) ->
  fold_left (fun d x => dict_set (key x) (val x) d) xs d0 =
    d0 ++ map (fun x => (key x, val x)) xs.
Proof.
  revert d0. induction xs as [|x xs IH]; intros d0 H; simpl.
  - now rewrite app_nil_r.
  - simpl in H. rewrite dict_set_fresh.
    + rewrite IH.
      * now rewrite <- app_assoc.
      * unfold keys in *. rewrite map_app, <- app_assoc. exact H.
    + apply NoDup_remove_2 in H. rewrite in_app_iff in H. tauto.
Qed.

Lemma NoDup_map_on {A : Type} (f g : A -> str) (l : list A) :
  NoDup (map f l) ->
  (forall a b, In a l -> In b l -> g a = g b -> f a = f b) ->
  NoDup (map g l).
Proof.
  induction l as [|x l IH]; simpl; intros Hn Hinj; [constructor|].
  inversion Hn as [|? ? Hx Hn']; subst. constructor.
  - intros Hin. apply in_map_iff in Hin as (y & Hy & Hin).
    apply Hx. apply in_map_iff. exists y. split; [|assumption].
    apply Hinj; auto.
  - apply IH; [assumption|]. intros a b Ha Hb. apply Hinj; auto.
Qed.

Lemma Forall2_map_both {A B C : Type} (R : B -> C -> Prop)
    (f : A -> B) (g : A -> C) (l : list A) :
  (forall x, In x l -> R (f x) (g x)) -> Forall2 R (map f l) (map g l).
Proof.
  induction l as [|x l IH]; simpl; intros H; constructor; auto.
Qed.

(** ** The line written for an item is read back *)

Lemma no_space_spec (s : str) :
  no_space s = true <-> forall c, In c s -> isspace c = false.
Proof.
  unfold no_space. rewrite forallb_forall. split; intros H c Hc.
  - now apply negb_true_iff, H.
  - now apply negb_true_iff, H.
Qed.

Lemma no_space_app (a b : str) :
  no_space (a ++ b) = no_space a && no_space b.
Proof. apply forallb_app. Qed.

Lemma py_str_no_space (n : Z) : no_space (py_str n) = true.
Proof.
  apply no_space_spec. intros c Hc. pose proof (py_str_label n) as H.
  rewrite forallb_forall in H. now apply label_char_plain, H.
Qed.

Lemma In_join (c : ascii) (sep : str) (parts : list str) :
  In c (join sep parts) -> In c sep \/ exists p, In p parts /\ In c p.
Proof.
  induction parts as [|p ps IH]; [intros []|].
  destruct ps as [|q ps].
  - simpl. intros H. right. exists p. auto.
  - change (join sep (p :: q :: ps)) with (p ++ sep ++ join sep (q :: ps)).
    rewrite !in_app_iff. intros [H|[H|H]].
    + right. exists p. simpl. auto.
    + now left.
    + destruct (IH H) as [H'|(p' & Hp' & Hc)]; [now left|].
      right. exists p'. split; [now right | assumption].
Qed.

(** The label part of a line has no double quote and no line break. *)
Lemma labels_plain (label_ids : list Z) (c : ascii) :
  In c (join [SPACE] (map py_str label_ids)) -> is_plain c = true.
Proof.
  intros H. apply In_join in H as [[<-|[]]|(p & Hp & Hc)]; [reflexivity|].
  apply in_map_iff in Hp as (n & <- & _).
  pose proof (py_str_label n) as L. rewrite forallb_forall in L.
  now apply label_char_plain, L.
Qed.

Lemma plain_not (c : ascii) :
  is_plain c = true -> c <> DQUOTE /\ c <> LF /\ c <> CR.
Proof. intros H. repeat split; intros ->; discriminate. Qed.

Lemma split_labels (label_ids : list Z) :
  split (join [SPACE] (map py_str label_ids) ++ [LF]) = map py_str label_ids.
Proof.
  induction label_ids as [|n ns IH]; [reflexivity|].
  destruct ns as [|m ns].
  - cbn [map join]. rewrite split_token_space; try reflexivity.
    + apply py_str_nonempty.
    + apply py_str_no_space.
  - change (join [SPACE] (map py_str (n :: m :: ns)))
      with (py_str n ++ [SPACE] ++ join [SPACE] (map py_str (m :: ns))).
    rewrite <- !app_assoc. cbn [app].
    rewrite split_token_space; try reflexivity.
    + cbn [map]. f_equal. exact IH.
    + apply py_str_nonempty.
    + apply py_str_no_space.
Qed.

(** A filename token, a space and the labels: the tokens are read back. *)
Lemma split_token_labels (token : str) (label_ids : list Z) :
  token <> [] -> no_space token = true ->
  split (token ++ SPACE :: join [SPACE] (map py_str label_ids) ++ [LF]) =
    token :: map py_str label_ids.
Proof.
  intros Hne Hn. rewrite split_token_space by (assumption || reflexivity).
  now rewrite split_labels.
Qed.

Lemma wf_ext_inv (ext : str) :
  wf_ext ext = true ->
  exists e, ext = DOT :: e /\ ~ In DOT e /\ ~ In SLASH e /\ ~ In DQUOTE e /\
            no_space e = true.
Proof.
  destruct ext as [|c e]; [discriminate|]. simpl.
  rewrite !andb_true_iff, !negb_true_iff. intros ((((Hc & H1) & H2) & H3) & H4).
  apply Ascii.eqb_eq in Hc. subst. exists e.
  rewrite <- !contains_false_In. auto.
Qed.

Section RoundTrip.

Variable _find_image_ext : DatasetItem -> str.
Variable set_iter : list Z -> list Z.

(** A set holds each of its elements once. *)
Hypothesis set_iter_In : forall l x, In x (set_iter l) <-> In x l.
Hypothesis set_iter_NoDup : forall l, NoDup (set_iter l).

Lemma labels_not_quote (label_ids : list Z) (tail : str) :
  ~ In DQUOTE tail ->
  ~ In DQUOTE (SPACE :: join [SPACE] (map py_str label_ids) ++ tail).
Proof.
  intros Ht [H|H]; [discriminate|]. apply in_app_iff in H as [H|H]; [|tauto].
  apply labels_plain, plain_not in H. tauto.
Qed.

Lemma parse_line_encoded (item : DatasetItem) (label_ids : list Z) :
  representable_id (id item) = true ->
  wf_ext (_find_image_ext item) = true ->
  parse_line (annotation_line (item_key _find_image_ext item, label_ids)) =
    Ok (id item, id item ++ _find_image_ext item, label_ids).
Proof.
  intros Hid Hext. unfold annotation_line, item_key. cbn [fst snd].
  destruct (wf_ext_inv _ Hext) as (e & -> & Hd & Hs & Hq & He).
  unfold representable_id in Hid.
  rewrite !andb_true_iff, !negb_true_iff in Hid.
  destruct Hid as (((Hq' & _) & _) & Hcase).
  assert (Hext_ne : DOT :: e <> []) by discriminate.
  assert (Hext_ns : no_space (DOT :: e) = true) by exact He.
  assert (Hlf : ~ In DQUOTE [LF]) by (intros [H|[]]; discriminate).
  destruct (1 <? length (split (id item)))%nat eqn:Emany.
  - match goal with
    | |- parse_line ?line = _ =>
        replace line
          with ([] ++ DQUOTE :: id item ++ DQUOTE ::
                  ((DOT :: e) ++
                   SPACE :: join [SPACE] (map py_str label_ids) ++ [LF]))
          by (simpl; rewrite <- !app_assoc; reflexivity)
    end.
    rewrite parse_line_quoted; try assumption; try reflexivity.
    + rewrite split_token_labels by assumption.
      cbn [getitem0 bind tl]. now rewrite ints_py_str.
    + apply contains_false_In. intros H.
      apply in_app_iff in H as [[H|H]|H]; [discriminate | tauto |].
      now apply labels_not_quote in H.
  - simpl in Hcase. apply andb_prop in Hcase as [Hns Hnd].
    assert (Htok_ne : id item ++ DOT :: e <> []) by (destruct (id item); discriminate).
    assert (Htok_ns : no_space (id item ++ DOT :: e) = true)
      by (rewrite no_space_app, Hns; exact He).
    rewrite parse_line_unquoted.
    + rewrite split_token_labels by assumption.
      cbn [getitem0 bind tl]. rewrite ints_py_str. cbn [bind].
      now rewrite splitext_ext.
    + apply contains_count, contains_false_In. intros H.
      apply in_app_iff in H as [H|H].
      * apply in_app_iff in H as [H|[H|H]];
          [apply contains_false_In in Hq'; tauto | discriminate | tauto].
      * now apply labels_not_quote in H.
Qed.

(** The key of an item determines its id. *)
Lemma item_key_injective (a b : DatasetItem) :
  representable_id (id a) = true -> wf_ext (_find_image_ext a) = true ->
  representable_id (id b) = true -> wf_ext (_find_image_ext b) = true ->
  item_key _find_image_ext a = item_key _find_image_ext b -> id a = id b.
Proof.
  intros Ha Ea Hb Eb E.
  pose proof (parse_line_encoded a [] Ha Ea) as Pa.
  pose proof (parse_line_encoded b [] Hb Eb) as Pb.
  rewrite E in Pa. congruence.
Qed.

Lemma decode_line_encoded self (item : DatasetItem) :
  encodable _find_image_ext self item = true ->
  decode_line self
    (annotation_line (item_key _find_image_ext item, set_iter (item_labels item))) =
    Ok (decoded _find_image_ext set_iter self item).
Proof.
  unfold encodable. rewrite !andb_true_iff. intros ((Hid & Hext) & Hl).
  unfold decode_line. rewrite parse_line_encoded by assumption. cbn [bind].
  rewrite check_labels_ok; [reflexivity|].
  apply Forall_forall. intros l Hin. apply (proj1 (set_iter_In _ _)) in Hin.
  rewrite forallb_forall in Hl. apply Hl in Hin.
  apply andb_prop in Hin as [H1 H2]. apply Z.leb_le in H1.
  apply Z.ltb_lt in H2. unfold in_catalog. lia.
Qed.

Lemma item_key_no_break (item : DatasetItem) (c : ascii) :
  representable_id (id item) = true ->
  wf_ext (_find_image_ext item) = true ->
  In c (item_key _find_image_ext item) -> c <> LF /\ c <> CR.
Proof.
  intros Hid Hext. unfold item_key.
  destruct (wf_ext_inv _ Hext) as (e & -> & _ & _ & _ & He).
  unfold representable_id in Hid.
  rewrite !andb_true_iff, !negb_true_iff in Hid.
  destruct Hid as (((_ & Hlf) & Hcr) & _).
  apply contains_false_In in Hlf, Hcr.
  assert (Hid : In c (id item) -> c <> LF /\ c <> CR)
    by (intros H; split; intros ->; tauto).
  assert (Hext' : In c (DOT :: e) -> c <> LF /\ c <> CR).
  { intros [<-|H]; [split; discriminate|].
    rewrite no_space_spec in He. apply He in H.
    split; intros ->; discriminate. }
  intros H. apply in_app_iff in H as [H|H]; [|auto].
  destruct (1 <? length (split (id item)))%nat; [|auto].
  destruct H as [<-|H]; [split; discriminate|].
  apply in_app_iff in H as [H|[<-|[]]]; [auto | split; discriminate].
Qed.

(** The text written for a subset is read back line by line. *)
Lemma file_lines_entries (entries : list (str * list Z)) :
  Forall (fun entry => forall c, In c (fst entry) -> c <> LF /\ c <> CR) entries ->
  file_lines (concat (map annotation_line entries)) = map annotation_line entries.
Proof.
  intros H.
  set (body := fun entry : str * list Z =>
         fst entry ++ SPACE :: join [SPACE] (map py_str (snd entry))).
  assert (E : map annotation_line entries =
              map (fun b => b ++ [LF]) (map body entries)).
  { rewrite map_map. apply map_ext. intros entry. unfold annotation_line, body.
    now rewrite <- app_assoc. }
  rewrite E. apply file_lines_concat.
  apply Forall_map. eapply Forall_impl; [|exact H]. intros entry Hk.
  assert (B : forall c, In c (body entry) -> c <> LF /\ c <> CR).
  { unfold body. intros c Hc. apply in_app_iff in Hc as [Hc|[<-|Hc]].
    - auto.
    - split; discriminate.
    - apply labels_plain, plain_not in Hc. tauto. }
  split; intros Hin; apply B in Hin; tauto.
Qed.

Lemma subset_labels_distinct self (items : list DatasetItem) :
  NoDup (map id items) ->
  forallb (encodable _find_image_ext self) items = true ->
  subset_labels _find_image_ext set_iter items =
    map (fun item => (item_key _find_image_ext item, set_iter (item_labels item)))
      items.
Proof.
  intros Hn He. unfold subset_labels.
  rewrite (fold_dict_set_fresh (item_key _find_image_ext)
             (fun item => set_iter (item_labels item))); [reflexivity|].
  simpl. apply (NoDup_map_on id); [assumption|].
  rewrite forallb_forall in He. intros a b Ha Hb.
  apply He in Ha, Hb. unfold encodable in Ha, Hb.
  rewrite !andb_true_iff in Ha, Hb.
  destruct Ha as ((Ha1 & Ha2) & _), Hb as ((Hb1 & Hb2) & _).
  intros E. symmetry. apply item_key_injective; auto.
Qed.

(** C1 (as amended).  For a subset whose items have distinct ids, each id
    without double quote or line break and either of more than one
    whitespace token or free of whitespace with a last path component that
    is not made of dots only, each extension a dot followed by characters
    other than the dot, the slash, the double quote and whitespace, and each
    label id within the catalog: decoding the annotation file that [apply]
    writes yields the items with the same ids in the same order, each with
    the image filename [id + extension] under the image directory and with
    the label ids of the original item, each once. *)
Theorem encode_decode_round_trip (self : ImagenetTxtExtractor)
    (items : list DatasetItem) :
  NoDup (map id items) ->
  forallb (encodable _find_image_ext self) items = true ->
  _items self (annotation _find_image_ext set_iter items) =
    Ok (map (decoded _find_image_ext set_iter self) items)
  /\
  map id (map (decoded _find_image_ext set_iter self) items) = map id items
  /\
  Forall (fun item =>
            let item' := decoded _find_image_ext set_iter self item in
            image item' =
              path_join (image_dir self) (id item ++ _find_image_ext item) /\
            NoDup (item_labels item') /\
            (forall l, In l (item_labels item') <-> In l (item_labels item)) /\
            (forall p, In p (annotations item') -> exists l, p = Label l))
    items.
Proof.
  intros Hn He.
  assert (Hl : forall ls, item_labels
                 {| id := []; subset := []; image := [];
                    annotations := map Label ls |} = ls).
  { unfold item_labels. simpl. induction ls; simpl; congruence. }
  split; [|split].
  - unfold _items, _load_items, annotation.
    rewrite (subset_labels_distinct self) by assumption.
    rewrite file_lines_entries.
    + rewrite map_map.
      rewrite (load_lines_decoded self _
                 (map (decoded _find_image_ext set_iter self) items)).
      * rewrite (fold_dict_set_fresh id (fun d => d)) by (now rewrite map_map).
        cbn [bind app]. unfold values. now rewrite map_map, map_id.
      * apply Forall2_map_both. intros item Hin. apply decode_line_encoded.
        rewrite forallb_forall in He. auto.
    + apply Forall_map, Forall_forall. intros item Hin c. cbn [fst].
      rewrite forallb_forall in He. apply He in Hin. unfold encodable in Hin.
      rewrite !andb_true_iff in Hin. destruct Hin as ((H1 & H2) & _).
      now apply item_key_no_break.
  - rewrite map_map. reflexivity.
  - apply Forall_forall. intros item _. cbn zeta.
    assert (E : item_labels (decoded _find_image_ext set_iter self item) =
                set_iter (item_labels item)) by apply Hl.
    rewrite E. repeat split.
    + apply set_iter_NoDup.
    + apply set_iter_In.
    + apply set_iter_In.
    + intros p Hp. simpl in Hp. apply in_map_iff in Hp as (l & <- & _). eauto.
Qed.

End RoundTrip.

Lemma encode_decode_round_trip_witness :
  let items :=
    [item_with (lit "a") [Label 0; OtherAnnotation; Label 1; Label 0];
     item_with (lit "my cat") [Label 1];
     item_with (lit "v1.0/x") []] in
  (forall l x, In x (nodup_iter l) <-> In x l) /\
  (forall l, NoDup (nodup_iter l)) /\
  NoDup (map id items) /\
  forallb (encodable default_ext cat_dog) items = true /\
  annotation default_ext nodup_iter items =
    lit "a.jpg 1 0" ++ LF :: quoted (lit "my cat") ++ lit ".jpg 1" ++ LF ::
    lit "v1.0/x.jpg " ++ [LF] /\
  _items cat_dog (annotation default_ext nodup_iter items) =
    Ok [{| id := lit "a"; subset := lit "train";
           image := lit "images/a.jpg"; annotations := [Label 1; Label 0] |};
        {| id := lit "my cat"; subset := lit "train";
           image := lit "images/my cat.jpg"; annotations := [Label 1] |};
        {| id := lit "v1.0/x"; subset := lit "train";
           image := lit "images/v1.0/x.jpg"; annotations := [] |}].
Proof.
  intros items.
  assert (H1 : forall l x, In x (nodup_iter l) <-> In x l)
    by (intros l x; apply nodup_In).
  assert (H2 : forall l, NoDup (nodup_iter l))
    by (intros l; apply NoDup_nodup).
  assert (H3 : NoDup (map id items)).
  { repeat constructor; simpl; intuition discriminate. }
  assert (H4 : forallb (encodable default_ext cat_dog) items = true)
    by reflexivity.
  split; [exact H1|]. split; [exact H2|]. split; [exact H3|].
  split; [exact H4|]. split; [reflexivity|].
  exact (proj1 (encode_decode_round_trip default_ext nodup_iter H1 H2
                  cat_dog items H3 H4)).
Defined.

(** C1 (as stated) fails.  None of these ids has a double quote.  An id
    with a leading space is written without quotes and read back without
    the space; the empty id is read back as the extension; an id of dots is
    read back with the extension; with a trailing space the extension is
    taken for a label; a line break in the id breaks the line; and a label
    id outside the catalog of the decoder is refused. *)
Lemma encode_decode_round_trip_counterexample :
  let encode := annotation default_ext nodup_iter in
  let ids r := match r with Ok l => Ok (map id l) | Raise e => Raise e end in
  (contains DQUOTE (lit " a") = false /\
   encode [item_with (lit " a") [Label 0]] = lit " a.jpg 0" ++ [LF] /\
   ids (_items cat_dog (encode [item_with (lit " a") [Label 0]])) =
     Ok [lit "a"])
  /\
  ids (_items cat_dog (encode [item_with (lit "") [Label 0]])) =
    Ok [lit ".jpg"]
  /\
  ids (_items cat_dog (encode [item_with (lit "..") [Label 0]])) =
    Ok [lit "...jpg"]
  /\
  ids (_items cat_dog (encode [item_with (lit "a ") [Label 0]])) =
    Raise (ValueError (lit ".jpg"))
  /\
  ids (_items cat_dog (encode [item_with (lit "a" ++ LF :: lit "b") [Label 0]])) =
    Raise (MalformedLine (DQUOTE :: lit "a" ++ [LF]))
  /\
  ids (_items cat_dog (encode [item_with (lit "a") [Label 2]])) =
    Raise (AssertionError (lit "a") 2).
Proof. repeat split. Qed.

(** * Further properties of the module *)

(** ** The errors of a line *)

Lemma decode_line_parse_raise self (line : str) (e : PyError) :
  (forall item_id l, e <> AssertionError item_id l) ->
  (decode_line self line = Raise e <-> parse_line line = Raise e).
Proof.
  intros He. unfold decode_line.
  destruct (parse_line line) as [[[item_id image] label_ids]|e'] eqn:E; simpl.
  - destruct (check_labels self item_id label_ids) eqn:C; simpl.
    + split; discriminate.
    + apply check_labels_raise in C as (l & _ & -> & _).
      split; [intros [= <-]; now elim (He item_id l) | discriminate].
  - split; intros [= ->]; reflexivity.
Qed.

Lemma parse_tokens_index (tokens : list str) (f : str -> str * str) :
  (item0 <- getitem0 tokens ;;
   label_ids <- ints (tl tokens) ;;
   Ok (fst (f item0), snd (f item0), label_ids)) = Raise IndexError <->
  tokens = [].
Proof.
  destruct tokens as [|t ts]; simpl; [tauto|].
  destruct (ints ts) eqn:E; simpl.
  - split; discriminate.
  - apply ints_raise in E as (t' & _ & ->). split; discriminate.
Qed.

Lemma index_error_cases self (line : str) :
  decode_line self line = Raise IndexError ->
  (count DQUOTE line = 0%nat /\ split line = []) \/
  (exists p0 p1 p2,
     line = p0 ++ DQUOTE :: p1 ++ DQUOTE :: p2 /\
     contains DQUOTE p0 = false /\ contains DQUOTE p1 = false /\
     contains DQUOTE p2 = false /\ split p2 = []).
Proof.
  rewrite decode_line_parse_raise by discriminate. intros H.
  destruct (Nat.eq_dec (count DQUOTE line) 0) as [E0|E0].
  { left. split; [assumption|]. rewrite parse_line_unquoted in H by assumption.
    now apply (parse_tokens_index _ (fun t => (fst (splitext t), t))) in H. }
  destruct (Nat.eq_dec (count DQUOTE line) 2) as [E2|E2].
  { right.
    assert (H3 : length (split_on DQUOTE line) = 3%nat)
      by (rewrite split_on_length; lia).
    destruct (split_on_three _ _ H3) as (p0 & p1 & p2 & -> & ? & ? & ? & _).
    exists p0, p1, p2. repeat split; try assumption.
    rewrite parse_line_quoted in H by assumption.
    now apply (parse_tokens_index _ (fun t => (p1, p1 ++ t))) in H. }
  rewrite parse_line_bad_quotes in H by assumption. discriminate.
Qed.

(** X1.  A line raises [IndexError] exactly when it has no double quote
    and no token at all, or when it has two double quotes and nothing but
    whitespace after the second one (a quoted id without extension). *)
Theorem index_error_iff (self : ImagenetTxtExtractor) (line : str) :
  decode_line self line = Raise IndexError <->
  (count DQUOTE line = 0%nat /\ has_nonspace line = false) \/
  (exists p0 p1 p2,
     line = p0 ++ DQUOTE :: p1 ++ DQUOTE :: p2 /\
     contains DQUOTE p0 = false /\ contains DQUOTE p1 = false /\
     contains DQUOTE p2 = false /\ has_nonspace p2 = false).
Proof.
  split.
  - intros H. apply index_error_cases in H
      as [[E0 Hb]|(p0 & p1 & p2 & E & H0 & H1 & H2 & Hb)].
    + left. split; [assumption | now apply split_nil_iff].
    + right. exists p0, p1, p2. repeat split; try assumption.
      now apply split_nil_iff.
  - rewrite decode_line_parse_raise by discriminate.
    intros [[E0 Hb]|(p0 & p1 & p2 & -> & H0 & H1 & H2 & Hb)].
    + rewrite parse_line_unquoted by assumption.
      apply split_nil_iff in Hb. now rewrite Hb.
    + rewrite parse_line_quoted by assumption.
      apply split_nil_iff in Hb. now rewrite Hb.
Qed.

(** ** The loop stops at the first line that fails *)

(** X2.  [_load_items] returns a collection only if every line of the
    file decodes; otherwise it raises the error of the first line that
    fails, whatever follows that line. *)
Theorem first_failing_line (self : ImagenetTxtExtractor) (text : str) :
  (forall d, _load_items self text = Ok d ->
     Forall (fun line => exists item, decode_line self line = Ok item)
       (file_lines text))
  /\
  (forall before line after e,
     file_lines text = before ++ line :: after ->
     Forall (fun l => exists item, decode_line self l = Ok item) before ->
     decode_line self line = Raise e ->
     _load_items self text = Raise e).
Proof.
  unfold _load_items. split.
  - generalize (@nil (str * DatasetItem)) as items.
    induction (file_lines text) as [|line lines IH]; intros items d H;
      [constructor|].
    simpl in H. destruct (decode_line self line) as [item|e] eqn:E;
      simpl in H; [|discriminate].
    constructor; [eauto | eapply IH; exact H].
  - intros before line after e -> Hb He.
    generalize (@nil (str * DatasetItem)) as items.
    induction Hb as [|l ls [item Hl] _ IH]; intros items; simpl.
    + now rewrite He.
    + rewrite Hl. simpl. apply IH.
Qed.

Lemma first_failing_line_witness :
  file_lines (lit "a.jpg 0" ++ LF :: lit "b.jpg x" ++ LF :: lit "c.jpg 9" ++ [LF]) =
    [lit "a.jpg 0" ++ [LF]] ++ (lit "b.jpg x" ++ [LF]) :: [lit "c.jpg 9" ++ [LF]] /\
  decode_line cat_dog (lit "b.jpg x" ++ [LF]) = Raise (ValueError (lit "x")) /\
  _load_items cat_dog
    (lit "a.jpg 0" ++ LF :: lit "b.jpg x" ++ LF :: lit "c.jpg 9" ++ [LF]) =
    Raise (ValueError (lit "x")).
Proof.
  split; [reflexivity|]. split; [reflexivity|].
  apply (proj2 (first_failing_line cat_dog _) [lit "a.jpg 0" ++ [LF]]
           (lit "b.jpg x" ++ [LF]) [lit "c.jpg 9" ++ [LF]]).
  - reflexivity.
  - repeat constructor. eexists. reflexivity.
  - reflexivity.
Defined.

(** ** The catalog may grow *)

Lemma check_labels_grow self self' item_id label_ids anno :
  (length (_categories self) <= length (_categories self'))%nat ->
  check_labels self item_id label_ids = Ok anno ->
  check_labels self' item_id label_ids = Ok anno.
Proof.
  intros Hle H. apply check_labels_ok_inv in H as [HF ->].
  apply check_labels_ok. eapply Forall_impl; [|exact HF].
  unfold in_catalog. simpl. intros l. lia.
Qed.

(** X3.  With the same subset name and image directory, what decodes
    against a catalog decodes to the same items against any catalog that is
    at least as long; and an error other than the failed assertion on a
    label id does not depend on the catalog at all. *)
Theorem catalog_growth (self self' : ImagenetTxtExtractor) (text : str) :
  _subset self' = _subset self -> image_dir self' = image_dir self ->
  (length (_categories self) <= length (_categories self'))%nat ->
  (forall line item, decode_line self line = Ok item ->
                     decode_line self' line = Ok item)
  /\
  (forall d, _load_items self text = Ok d -> _load_items self' text = Ok d)
  /\
  (forall line e, (forall item_id l, e <> AssertionError item_id l) ->
     decode_line self line = Raise e -> decode_line self' line = Raise e).
Proof.
  intros Hs Hi Hle.
  assert (L : forall line item, decode_line self line = Ok item ->
                                decode_line self' line = Ok item).
  { intros line item. unfold decode_line.
    destruct (parse_line line) as [[[item_id image] label_ids]|e]; simpl;
      [|discriminate].
    destruct (check_labels self item_id label_ids) as [anno|e] eqn:C; simpl;
      [|discriminate].
    rewrite (check_labels_grow self self' _ _ _ Hle C). simpl.
    now rewrite Hs, Hi. }
  split; [exact L|]. split.
  - unfold _load_items. generalize (@nil (str * DatasetItem)) as items.
    induction (file_lines text) as [|line lines IH]; intros items d H;
      [exact H|].
    simpl in *. destruct (decode_line self line) as [item|e] eqn:E;
      simpl in H; [|discriminate].
    rewrite (L _ _ E). simpl. now apply IH.
  - intros line e He H. apply decode_line_parse_raise in H; [|assumption].
    now apply decode_line_parse_raise.
Qed.

Lemma catalog_growth_witness :
  let bigger := {| _subset := lit "train"; image_dir := lit "images";
                   _categories := [lit "cat"; lit "dog"; lit "bird"] |} in
  _subset bigger = _subset cat_dog /\ image_dir bigger = image_dir cat_dog /\
  (length (_categories cat_dog) <= length (_categories bigger))%nat /\
  _load_items cat_dog (lit "a.jpg 0 1" ++ [LF]) =
    Ok [(lit "a", {| id := lit "a"; subset := lit "train";
                     image := lit "images/a.jpg";
                     annotations := [Label 0; Label 1] |})] /\
  _load_items bigger (lit "a.jpg 0 1" ++ [LF]) =
    Ok [(lit "a", {| id := lit "a"; subset := lit "train";
                     image := lit "images/a.jpg";
                     annotations := [Label 0; Label 1] |})].
Proof.
  intros bigger.
  split; [reflexivity|]. split; [reflexivity|]. split; [simpl; lia|].
  split; [reflexivity|].
  apply (proj1 (proj2 (catalog_growth cat_dog bigger (lit "a.jpg 0 1" ++ [LF])
                         eq_refl eq_refl ltac:(simpl; lia)))).
  reflexivity.
Defined.

(** ** The lines of a file *)

Lemma universal_newlines_CR_free (s : str) : ~ In CR (universal_newlines s).
Proof.
  assert (H : forall n s, (length s <= n)%nat -> ~ In CR (universal_newlines s)).
  { clear s. induction n as [|n IH]; intros s Hl.
    - destruct s; [intros [] | simpl in Hl; lia].
    - destruct s as [|c s]; [intros []|]. simpl in Hl.
      cbn [universal_newlines]. destruct (Ascii.eqb c CR) eqn:Ec.
      + intros [H|H]; [discriminate|].
        destruct s as [|d s]; [exact H|].
        destruct (Ascii.eqb d LF).
        * revert H. apply IH. simpl in Hl. lia.
        * revert H. apply IH. lia.
      + intros [H|H].
        * subst. now rewrite Ascii.eqb_refl in Ec.
        * revert H. apply IH. lia. }
  apply (H (length s)). lia.
Qed.

Lemma keepends_concat (s : str) : concat (keepends s) = s.
Proof.
  induction s as [|c s IH]; [reflexivity|]. simpl.
  destruct (Ascii.eqb c LF) eqn:E.
  - apply Ascii.eqb_eq in E. subst. simpl. now rewrite IH.
  - destruct (keepends s) as [|l ls]; simpl in *; now rewrite <- IH.
Qed.

(** A line is a body without line break, followed by its terminator
    unless it is the unterminated last line. *)
Lemma keepends_shape (s : str) :
  Forall (fun l => exists body,
            ~ In LF body /\ (l = body ++ [LF] \/ (l = body /\ body <> [])))
    (keepends s).
Proof.
  induction s as [|c s IH]; [constructor|]. simpl.
  destruct (Ascii.eqb c LF) eqn:E.
  - apply Ascii.eqb_eq in E. subst. constructor; [|exact IH].
    exists []. split; [intros [] | now left].
  - assert (Hc : c <> LF) by (intros ->; discriminate).
    destruct (keepends s) as [|l ls]; simpl.
    + constructor; [|constructor]. exists [c]. split.
      * intros [H|[]]. congruence.
      * right. split; [reflexivity | discriminate].
    + inversion IH as [|? ? (body & Hb & Hl) Hls]; subst.
      constructor; [|exact Hls]. exists (c :: body). split.
      * intros [H|H]; [congruence | tauto].
      * destruct Hl as [->|[-> _]]; [now left | right].
        split; [reflexivity | discriminate].
Qed.

Lemma file_lines_shape (text : str) :
  Forall (fun l => exists body,
            ~ In LF body /\ ~ In CR body /\
            (l = body ++ [LF] \/ (l = body /\ body <> [])))
    (file_lines text).
Proof.
  unfold file_lines.
  pose proof (keepends_shape (universal_newlines text)) as H.
  pose proof (keepends_concat (universal_newlines text)) as C.
  pose proof (universal_newlines_CR_free text) as N.
  rewrite Forall_forall in *. intros l Hl.
  destruct (H l Hl) as (body & Hb & Hs). exists body.
  split; [assumption|]. split; [|assumption].
  intros Hin. apply N. rewrite <- C. apply in_concat. exists l.
  split; [assumption|].
  destruct Hs as [->|[-> _]]; [apply in_app_iff; now left | assumption].
Qed.

(** ** Stripping *)

Lemma lstrip_decomp (s : str) :
  exists w, s = w ++ lstrip s /\ forallb isspace w = true.
Proof.
  induction s as [|c s (w & Hw & Hs)]; [now exists []|]. simpl.
  destruct (isspace c) eqn:E.
  - exists (c :: w). simpl. rewrite E, Hs. split; [now f_equal | reflexivity].
  - now exists [].
Qed.

Lemma lstrip_head (s : str) :
  match lstrip s with c :: _ => isspace c = false | [] => True end.
Proof.
  induction s as [|c s IH]; [exact I|]. simpl.
  destruct (isspace c) eqn:E; [exact IH | exact E].
Qed.

Lemma strip_no_surrounding_space (s : str) : no_surrounding_space (strip s).
Proof.
  unfold strip, rstrip, no_surrounding_space.
  destruct (lstrip_decomp (rev (lstrip s))) as (w & Hw & _).
  pose proof (lstrip_head s) as Ht.
  pose proof (lstrip_head (rev (lstrip s))) as Hu.
  remember (lstrip (rev (lstrip s))) as u eqn:Eu. clear Eu.
  rewrite rev_involutive. split; [|exact Hu].
  apply (f_equal (@rev ascii)) in Hw. rewrite rev_involutive, rev_app_distr in Hw.
  rewrite Hw in Ht. destruct (rev u) as [|c r]; [exact I | exact Ht].
Qed.

Lemma In_lstrip (c : ascii) (s : str) : In c (lstrip s) -> In c s.
Proof.
  destruct (lstrip_decomp s) as (w & Hw & _). intros H. rewrite Hw.
  apply in_app_iff. now right.
Qed.

Lemma In_strip (c : ascii) (s : str) : In c (strip s) -> In c s.
Proof.
  unfold strip, rstrip. intros H. apply in_rev, In_lstrip in H.
  apply In_lstrip. now apply in_rev.
Qed.

Lemma strip_trailing_space (s : str) (w : ascii) :
  isspace w = true -> strip (s ++ [w]) = strip s.
Proof.
  intros Hw. unfold strip.
  assert (R : forall x, rstrip (x ++ [w]) = rstrip x).
  { intros x. unfold rstrip. rewrite rev_app_distr. simpl. now rewrite Hw. }
  induction s as [|c s IH]; simpl.
  - now rewrite Hw.
  - destruct (isspace c); [exact IH|].
    change (c :: s ++ [w]) with ((c :: s) ++ [w]). apply R.
Qed.

(** ** Loading the catalog *)

Lemma labels_file_read_back (names : list str) :
  Forall (fun n => strip n = n /\ ~ In LF n /\ ~ In CR n) names ->
  _parse_labels (labels_file names) = names.
Proof.
  intros H. unfold _parse_labels, labels_file.
  rewrite file_lines_concat by (eapply Forall_impl; [|exact H]; simpl; tauto).
  rewrite map_map.
  induction H as [|n ns (Hn & _ & _) _ IH]; simpl; [reflexivity|].
  rewrite strip_line by (now apply strip_fixed_iff). now f_equal.
Qed.

(** X4.  Whatever the labels file holds, the names that [_parse_labels]
    returns are one per line of the file, have no surrounding whitespace and
    no line break; hence writing a loaded catalog with [apply] and loading it
    again gives the same catalog. *)
Theorem loaded_catalog_normal (text : str) :
  length (_parse_labels text) = length (file_lines text) /\
  Forall (fun n => strip n = n /\ ~ In LF n /\ ~ In CR n) (_parse_labels text) /\
  _parse_labels (labels_file (_parse_labels text)) = _parse_labels text.
Proof.
  assert (H : Forall (fun n => strip n = n /\ ~ In LF n /\ ~ In CR n)
                (_parse_labels text)).
  { unfold _parse_labels. apply Forall_map.
    eapply Forall_impl; [|apply file_lines_shape].
    intros l (body & Hlf & Hcr & Hs).
    assert (E : strip l = strip body).
    { destruct Hs as [->|[-> _]]; [|reflexivity].
      now apply strip_trailing_space. }
    rewrite E. split; [|split].
    - apply strip_fixed_iff, strip_no_surrounding_space.
    - intros Hin. apply In_strip in Hin. tauto.
    - intros Hin. apply In_strip in Hin. tauto. }
  split; [unfold _parse_labels; apply length_map|].
  split; [exact H | now apply labels_file_read_back].
Qed.

(** ** What a decoded collection always satisfies *)











(** ** Whitespace around a line *)

Lemma trailing_space_ignored self (line w : str) :
  forallb isspace w = true ->
  (count DQUOTE line = 0 \/ count DQUOTE line = 2)%nat ->
  decode_line self (line ++ w) = decode_line self line.
Proof.
  intros Hw. pose proof (blank_no_quote w Hw) as Hq.
  assert (Hc : contains DQUOTE w = false) by now apply contains_count.
  unfold decode_line. intros [E0|E2].
  - rewrite !parse_line_unquoted by (rewrite ?count_app; lia).
    now rewrite split_trailing_space.
  - assert (H3 : length (split_on DQUOTE line) = 3%nat)
      by (rewrite split_on_length; lia).
    destruct (split_on_three _ _ H3) as (p0 & p1 & p2 & -> & H0 & H1 & H2 & _).
    replace ((p0 ++ DQUOTE :: p1 ++ DQUOTE :: p2) ++ w)
      with (p0 ++ DQUOTE :: p1 ++ DQUOTE :: (p2 ++ w))
      by (repeat (rewrite <- app_assoc; simpl); reflexivity).
    rewrite !parse_line_quoted; try assumption.
    + now rewrite split_trailing_space.
    + apply contains_false_In. intros Hin.
      apply contains_false_In in H2, Hc.
      apply in_app_iff in Hin. tauto.
Qed.

(** X6.  Whitespace after the last token of a line, such as the line
    terminator, changes nothing in what the line decodes to, error included,
    when the line has no or two double quotes; in a line without double
    quote, whitespace before the first token changes nothing either. *)
Theorem surrounding_whitespace_ignored (self : ImagenetTxtExtractor)
    (line w : str) :
  forallb isspace w = true ->
  ((count DQUOTE line = 0 \/ count DQUOTE line = 2)%nat ->
   decode_line self (line ++ w) = decode_line self line)
  /\
  (count DQUOTE line = 0%nat ->
   decode_line self (w ++ line) = decode_line self line).
Proof.
  intros Hw. split.
  - now apply trailing_space_ignored.
  - intros E0. pose proof (blank_no_quote w Hw) as Hq. unfold decode_line.
    rewrite !parse_line_unquoted by (rewrite ?count_app; lia).
    now rewrite split_leading_space.
Qed.

Lemma surrounding_whitespace_ignored_witness :
  forallb isspace (SPACE :: CR :: [LF]) = true /\
  count DQUOTE (quoted (lit "my cat") ++ lit ".jpg 0 1") = 2%nat /\
  decode_line cat_dog
    ((quoted (lit "my cat") ++ lit ".jpg 0 1") ++ SPACE :: CR :: [LF]) =
    decode_line cat_dog (quoted (lit "my cat") ++ lit ".jpg 0 1").
Proof.
  split; [reflexivity|]. split; [reflexivity|].
  apply (proj1 (surrounding_whitespace_ignored cat_dog
                  (quoted (lit "my cat") ++ lit ".jpg 0 1")
                  (SPACE :: CR :: [LF]) eq_refl)).
  right. reflexivity.
Defined.

(** ** The keys of the encoder *)

Section Keys.

Variable _find_image_ext : DatasetItem -> str.
Variable set_iter : list Z -> list Z.

Lemma quoted_many_tokens (s : str) :
  (1 < length (split s))%nat ->
  (1 < length (split (DQUOTE :: s ++ [DQUOTE])))%nat.
Proof.
  intros H. apply split_many_iff in H as (a & w & b & -> & Hw & Ha & Hb).
  apply split_many_iff. exists (DQUOTE :: a), w, (b ++ [DQUOTE]).
  repeat split; try assumption.
  - now rewrite <- app_assoc.
  - unfold has_nonspace in *. rewrite existsb_app, Hb. reflexivity.
Qed.

Lemma item_key_same_ext (a b : DatasetItem) :
  _find_image_ext a = _find_image_ext b ->
  item_key _find_image_ext a = item_key _find_image_ext b ->
  id a = id b.
Proof.
  intros Hext. unfold item_key. rewrite Hext. intros H.
  apply app_inv_tail in H.
  destruct (1 <? length (split (id a)))%nat eqn:Ea;
    destruct (1 <? length (split (id b)))%nat eqn:Eb.
  - injection H as H. now apply app_inv_tail in H.
  - apply Nat.ltb_lt in Ea. apply quoted_many_tokens in Ea.
    rewrite H in Ea. apply Nat.ltb_ge in Eb. lia.
  - apply Nat.ltb_lt in Eb. apply quoted_many_tokens in Eb.
    rewrite <- H in Eb. apply Nat.ltb_ge in Ea. lia.
  - exact H.
Qed.

(** X7.  When the images of a subset all have the same extension, items
    with different ids get different keys, whatever the ids are; so a subset
    of items with distinct ids gets one entry of [labels], and one line, per
    item, in the order of the items. *)
Theorem one_entry_per_item (items : list DatasetItem) :
  NoDup (map id items) ->
  (forall a b, In a items -> In b items ->
               _find_image_ext a = _find_image_ext b) ->
  (forall a b, In a items -> In b items ->
               item_key _find_image_ext a = item_key _find_image_ext b ->
               id a = id b) /\
  subset_labels _find_image_ext set_iter items =
    map (fun item => (item_key _find_image_ext item, set_iter (item_labels item)))
      items /\
  length (subset_labels _find_image_ext set_iter items) = length items.
Proof.
  intros Hn Hext.
  assert (Hinj : forall a b, In a items -> In b items ->
            item_key _find_image_ext a = item_key _find_image_ext b ->
            id a = id b).
  { intros a b Ha Hb. apply item_key_same_ext. now apply Hext. }
  assert (E : subset_labels _find_image_ext set_iter items =
    map (fun item => (item_key _find_image_ext item, set_iter (item_labels item)))
      items).
  { unfold subset_labels.
    rewrite (fold_dict_set_fresh (item_key _find_image_ext)
               (fun item => set_iter (item_labels item))); [reflexivity|].
    simpl. apply (NoDup_map_on id); [assumption|].
    intros a b Ha Hb Hk. symmetry. now apply Hinj. }
  split; [|split].
  - exact Hinj.
  - exact E.
  - now rewrite E, length_map.
Qed.

Lemma keys_fold_set {A V : Type} (key : A -> str) (val : A -> V)
    (xs : list A) (d0 : dict V) :
  keys (fold_left (fun d x => dict_set (key x) (val x) d) xs d0) =
    keys d0 ++ first_occurrences_from (keys d0) (map key xs).
Proof.
  revert d0. induction xs as [|x xs IH]; intros d0; simpl.
  - now rewrite app_nil_r.
  - rewrite IH, keys_dict_set.
    destruct (in_dec str_eq_dec (key x) (keys d0)); [reflexivity|].
    now rewrite <- app_assoc.
Qed.

Lemma dict_get_subset_labels (k : str) (items : list DatasetItem)
    (d0 : dict (list Z)) :
  dict_get k
    (fold_left
       (fun labels item =>
          dict_set (item_key _find_image_ext item) (set_iter (item_labels item))
            labels) items d0) =
    match last_with_key _find_image_ext k items with
    | Some item => Some (set_iter (item_labels item))
    | None => dict_get k d0
    end.
Proof.
  revert d0. induction items as [|item items IH]; intros d0; simpl;
    [reflexivity|].
  rewrite IH. destruct (last_with_key _find_image_ext k items); [reflexivity|].
  rewrite dict_get_set.
  destruct (str_eq_dec (item_key _find_image_ext item) k); reflexivity.
Qed.

(** X8.  The dictionary [labels] of [apply] holds each key once, at the
    position of the first item that has it, with the labels of the last
    item that has it: items with the same key share one line and the labels
    of the earlier ones are not written. *)
Theorem subset_labels_overwrite (items : list DatasetItem) :
  keys (subset_labels _find_image_ext set_iter items) =
    first_occurrences (map (item_key _find_image_ext) items) /\
  NoDup (keys (subset_labels _find_image_ext set_iter items)) /\
  (forall k,
     dict_get k (subset_labels _find_image_ext set_iter items) =
       option_map (fun item => set_iter (item_labels item))
         (last_with_key _find_image_ext k items)).
Proof.
  unfold subset_labels.
  pose proof (keys_fold_set (item_key _find_image_ext)
                (fun item => set_iter (item_labels item)) items []) as K.
  simpl in K.
  destruct (first_occurrences_from_spec []
              (map (item_key _find_image_ext) items) (NoDup_nil _)) as [Hn _].
  simpl in Hn. split; [exact K|]. split; [now rewrite K|].
  intros k. rewrite dict_get_subset_labels.
  destruct (last_with_key _find_image_ext k items); reflexivity.
Qed.

End Keys.

Lemma one_entry_per_item_witness :
  let items := [item_with (lit "a b") [Label 0]; item_with (lit "a") [Label 1];
                item_with (quoted (lit "a b")) []] in
  NoDup (map id items) /\
  (forall a b, In a items -> In b items -> default_ext a = default_ext b) /\
  subset_labels default_ext nodup_iter items =
    [(quoted (lit "a b") ++ lit ".jpg", [0]); (lit "a.jpg", [1]);
     (quoted (quoted (lit "a b")) ++ lit ".jpg", [])].
Proof.
  intros items.
  assert (H1 : NoDup (map id items))
    by (repeat constructor; simpl; intuition discriminate).
  assert (H2 : forall a b, In a items -> In b items ->
                           default_ext a = default_ext b) by reflexivity.
  split; [exact H1|]. split; [exact H2|].
  exact (proj1 (proj2 (one_entry_per_item default_ext nodup_iter items H1 H2))).
Defined.

(** Without a common extension two items with different ids can share a
    key. *)
Lemma key_collision_example :
  let ext_of item :=
    if str_eq_dec (id item) (lit "a") then lit ".b.jpg" else lit ".jpg" in
  let items := [item_with (lit "a") [Label 0]; item_with (lit "a.b") [Label 1]] in
  NoDup (map id items) /\
  subset_labels ext_of nodup_iter items = [(lit "a.b.jpg", [1])] /\
  annotation ext_of nodup_iter items = lit "a.b.jpg 1" ++ [LF].
Proof.
  split; [repeat constructor; simpl; intuition discriminate|].
  split; reflexivity.
Qed.

(** ** Paths *)

Lemma startswith_slash_free (f : str) :
  ~ In SLASH f -> startswith SLASH f = false.
Proof.
  destruct f as [|c f]; [reflexivity|]. simpl. intros H.
  destruct (Ascii.eqb c SLASH) eqn:E; [|reflexivity].
  apply Ascii.eqb_eq in E. subst. elim H. now left.
Qed.

Lemma endswith_true (a : str) :
  endswith SLASH a = true -> exists a', a = a' ++ [SLASH].
Proof.
  unfold endswith. intros H. destruct (rev a) as [|z r] eqn:E; [discriminate|].
  simpl in H. apply Ascii.eqb_eq in H. subst.
  exists (rev r). apply (f_equal (@rev ascii)) in E.
  now rewrite rev_involutive in E.
Qed.

Lemma basename_after_slash (a f : str) :
  ~ In SLASH f -> basename (a ++ SLASH :: f) = f.
Proof.
  intros H. unfold basename. rewrite rfind_last by assumption.
  replace (Z.to_nat (Z.of_nat (length a) + 1)) with (length a + 1)%nat by lia.
  rewrite skipn_app, skipn_all2 by lia.
  replace (length a + 1 - length a)%nat with 1%nat by lia. reflexivity.
Qed.

Lemma basename_slash_free (f : str) : ~ In SLASH f -> basename f = f.
Proof.
  intros H. unfold basename, rfind. now rewrite rfind_from_absent.
Qed.

(** The last component of a joined path is the joined name. *)
Lemma basename_path_join (a f : str) :
  ~ In SLASH f -> basename (path_join a f) = f.
Proof.
  intros H. unfold path_join. rewrite startswith_slash_free by assumption.
  destruct a as [|c a]; [now apply basename_slash_free|].
  destruct (endswith SLASH (c :: a)) eqn:E.
  - apply endswith_true in E as (a' & ->). rewrite <- app_assoc. simpl.
    now apply basename_after_slash.
  - now apply basename_after_slash.
Qed.



Lemma splitext_txt (name : str) :
  ~ In SLASH name -> has_non_dot name = true ->
  splitext (name ++ lit ".txt") = (name, lit ".txt").
Proof.
  intros Hs Hd. apply splitext_ext.
  - intros H. simpl in H. intuition discriminate.
  - intros H. simpl in H. intuition discriminate.
  - now rewrite basename_slash_free.
Qed.

Lemma txt_slash_free (name : str) :
  ~ In SLASH name -> ~ In SLASH (name ++ lit ".txt").
Proof.
  intros H Hin. apply in_app_iff in Hin as [Hin|Hin]; [tauto|].
  simpl in Hin. intuition discriminate.
Qed.

(** ** Written files *)




(** ** [__init__] *)

Lemma init_built (fs : files) (path : str) (labels : LabelsArg)
    (image_dir0 subset0 : option str) (self : ImagenetTxtExtractor)
    (items : list DatasetItem) :
  __init__ fs path labels image_dir0 subset0 = Built self items ->
  exists text,
    fs path = Some text /\
    _subset self = or_default subset0 (fst (splitext (basename path))) /\
    image_dir self =
      path_join (dirname path) (or_default image_dir0 ImagenetTxtPath.IMAGE_DIR) /\
    _items self text = Ok items.
Proof.
  unfold __init__. destruct (fs path) as [text|]; [|discriminate].
  intros H. exists text. split; [reflexivity|].
  match type of H with
  | match ?l with inl _ => _ | inr _ => _ end = _ =>
      destruct l as [names|e]; [|discriminate]
  end.
  match type of H with
  | match ?r with Ok _ => _ | Raise _ => _ end = _ =>
      destruct r as [its|e] eqn:E; [|discriminate]
  end.
  injection H as <- <-. simpl. auto.
Qed.

(** X9.  An extractor built on the annotation file that [apply] writes
    for a subset takes the name of that subset, unless it is given a
    non-empty subset name, which it keeps: the name is the file name without
    its extension, for any save directory. *)
Theorem subset_name_of_written_file (fs : files) (save_dir name : str)
    (labels : LabelsArg) (image_dir0 subset0 : option str)
    (self : ImagenetTxtExtractor) (items : list DatasetItem) :
  ~ In SLASH name -> has_non_dot name = true ->
  __init__ fs (path_join save_dir (name ++ lit ".txt")) labels image_dir0 subset0 =
    Built self items ->
  _subset self = or_default subset0 name.
Proof.
  intros Hs Hd H. apply init_built in H as (text & _ & E & _).
  rewrite E, basename_path_join by now apply txt_slash_free.
  now rewrite splitext_txt.
Qed.

Lemma subset_name_of_written_file_witness :
  let fs := write_files [(lit "out/val.txt", lit "a.jpg 0" ++ [LF])] (fun _ => None) in
  ~ In SLASH (lit "val") /\ has_non_dot (lit "val") = true /\
  __init__ fs (path_join (lit "out") (lit "val" ++ lit ".txt"))
    (LabelsList [lit "cat"]) None None =
    Built {| _subset := lit "val"; image_dir := lit "out/images";
             _categories := [lit "cat"] |}
      [{| id := lit "a"; subset := lit "val"; image := lit "out/images/a.jpg";
          annotations := [Label 0] |}] /\
  _subset {| _subset := lit "val"; image_dir := lit "out/images";
             _categories := [lit "cat"] |} = or_default None (lit "val").
Proof.
  intros fs.
  assert (H1 : ~ In SLASH (lit "val")) by (simpl; intuition discriminate).
  split; [exact H1|]. split; [reflexivity|]. split; [reflexivity|].
  apply (subset_name_of_written_file fs (lit "out") (lit "val")
           (LabelsList [lit "cat"]) None None _
           [{| id := lit "a"; subset := lit "val"; image := lit "out/images/a.jpg";
               annotations := [Label 0] |}] H1 eq_refl eq_refl).
Defined.

(** ** The file filter of the importer *)



(** ** From [apply] to [__init__] *)

Section EndToEnd.

Variable _find_image_ext : DatasetItem -> str.
Variable set_iter : list Z -> list Z.
Hypothesis set_iter_In : forall l x, In x (set_iter l) <-> In x l.



End EndToEnd.



(** ** The lines of [apply] have a filename token *)





(** ** Labels given to [__init__] *)

(** X14.  Giving [__init__] the label names themselves, or the name of a
    labels file, or nothing, builds the same extractor when the labels file
    meant holds these names as [apply] writes them (names without
    surrounding whitespace or line break). *)
Theorem labels_argument_forms (fs : files) (path : str) (names : list str)
    (image_dir0 subset0 : option str) :
  Forall (fun n => strip n = n /\ ~ In LF n /\ ~ In CR n) names ->
  (fs (path_join (dirname path) ImagenetTxtPath.LABELS_FILE) =
     Some (labels_file names) ->
   __init__ fs path LabelsNone image_dir0 subset0 =
     __init__ fs path (LabelsList names) image_dir0 subset0 /\
   __init__ fs path (LabelsFileName []) image_dir0 subset0 =
     __init__ fs path (LabelsList names) image_dir0 subset0)
  /\
  (forall c name,
     fs (path_join (dirname path) (c :: name)) = Some (labels_file names) ->
     __init__ fs path (LabelsFileName (c :: name)) image_dir0 subset0 =
       __init__ fs path (LabelsList names) image_dir0 subset0).
Proof.
  intros Hn. unfold __init__. split.
  - intros E. destruct (fs path) as [text|]; [|split; reflexivity].
    cbn [or_default]. rewrite E, labels_file_read_back by assumption.
    split; reflexivity.
  - intros c name E. destruct (fs path) as [text|]; [|reflexivity].
    cbn [or_default]. now rewrite E, labels_file_read_back.
Qed.

Lemma labels_argument_forms_witness :
  let fs := write_files
              [(lit "out/val.txt", lit "a.jpg 1" ++ [LF]);
               (lit "out/synsets.txt", labels_file [lit "cat"; lit "dog"])]
              (fun _ => None) in
  Forall (fun n => strip n = n /\ ~ In LF n /\ ~ In CR n) [lit "cat"; lit "dog"] /\
  fs (path_join (dirname (lit "out/val.txt")) ImagenetTxtPath.LABELS_FILE) =
    Some (labels_file [lit "cat"; lit "dog"]) /\
  __init__ fs (lit "out/val.txt") LabelsNone None None =
    __init__ fs (lit "out/val.txt") (LabelsList [lit "cat"; lit "dog"]) None None.
Proof.
  intros fs.
  assert (H : Forall (fun n => strip n = n /\ ~ In LF n /\ ~ In CR n)
                [lit "cat"; lit "dog"])
    by (repeat constructor; simpl; intuition discriminate).
  split; [exact H|]. split; [reflexivity|].
  apply (proj1 (labels_argument_forms fs (lit "out/val.txt")
                  [lit "cat"; lit "dog"] None None H)).
  reflexivity.
Defined.

(** ** The terminator of the last line *)

Lemma universal_newlines_app_plain (t r : str) (c : ascii) :
  c <> CR -> c <> LF ->
  universal_newlines (t ++ c :: r) =
    universal_newlines t ++ c :: universal_newlines r.
Proof.
  intros Hcr Hlf.
  assert (Ec : Ascii.eqb c CR = false) by now apply Ascii.eqb_neq.
  assert (El : Ascii.eqb c LF = false) by now apply Ascii.eqb_neq.
  assert (H : forall n t, (length t <= n)%nat ->
            universal_newlines (t ++ c :: r) =
              universal_newlines t ++ c :: universal_newlines r).
  { induction n as [|n IH]; intros s Hl.
    - destruct s; [|simpl in Hl; lia]. simpl. now rewrite Ec.
    - destruct s as [|x s]; [simpl; now rewrite Ec|]. simpl in Hl.
      cbn [app universal_newlines]. destruct (Ascii.eqb x CR).
      + destruct s as [|d s].
        * cbn [app]. rewrite El. cbn [universal_newlines]. now rewrite Ec.
        * cbn [app]. destruct (Ascii.eqb d LF).
          -- rewrite IH by (simpl in Hl; lia). reflexivity.
          -- change (d :: s ++ c :: r) with ((d :: s) ++ c :: r).
             rewrite IH by lia. reflexivity.
      + rewrite IH by lia. reflexivity. }
  apply (H (length t)). lia.
Qed.

Lemma keepends_last_line (u : str) (c : ascii) :
  c <> LF ->
  exists init l,
    keepends (u ++ [c]) = init ++ [l] /\
    keepends (u ++ [c; LF]) = init ++ [l ++ [LF]].
Proof.
  intros Hc. assert (Ec : Ascii.eqb c LF = false) by now apply Ascii.eqb_neq.
  induction u as [|x u (init & l & E1 & E2)].
  - exists [], [c]. simpl. now rewrite Ec.
  - cbn [app keepends]. rewrite E1, E2. destruct (Ascii.eqb x LF).
    + exists ([LF] :: init), l. split; reflexivity.
    + destruct init as [|i init].
      * exists [], (x :: l). split; reflexivity.
      * exists ((x :: i) :: init), l. split; reflexivity.
Qed.

Lemma decode_ok_trailing_space self (line w : str) (item : DatasetItem) :
  forallb isspace w = true ->
  (decode_line self (line ++ w) = Ok item <-> decode_line self line = Ok item).
Proof.
  intros Hw.
  destruct (Nat.eq_dec (count DQUOTE line) 0) as [E0|E0];
    [now rewrite trailing_space_ignored by auto|].
  destruct (Nat.eq_dec (count DQUOTE line) 2) as [E2|E2];
    [now rewrite trailing_space_ignored by auto|].
  pose proof (blank_no_quote w Hw) as Hq. unfold decode_line.
  rewrite !parse_line_bad_quotes by (rewrite ?count_app; lia).
  split; discriminate.
Qed.

(** X15.  Whether the last line of the file ends with a line terminator
    makes no difference: a text whose last character is not a line break
    decodes to a collection if and only if the text followed by a line
    terminator decodes to that collection. *)
Theorem final_terminator_optional (self : ImagenetTxtExtractor)
    (t : str) (c : ascii) (d : dict DatasetItem) :
  c <> LF -> c <> CR ->
  (_load_items self ((t ++ [c]) ++ [LF]) = Ok d <->
   _load_items self (t ++ [c]) = Ok d).
Proof.
  intros Hlf Hcr. unfold _load_items, file_lines.
  rewrite <- app_assoc. cbn [app].
  rewrite !universal_newlines_app_plain by assumption.
  change (universal_newlines [LF]) with [LF].
  change (universal_newlines []) with (@nil ascii).
  destruct (keepends_last_line (universal_newlines t) c Hlf)
    as (init & l & E1 & E2).
  rewrite E1, E2, !load_lines_app.
  destruct (load_lines self init []) as [d0|e]; cbn [bind load_lines];
    [|split; discriminate].
  assert (Hw : forallb isspace [LF] = true) by reflexivity.
  destruct (decode_line self l) as [item|e] eqn:El.
  - apply (decode_ok_trailing_space self l [LF] item Hw) in El.
    rewrite El. reflexivity.
  - destruct (decode_line self (l ++ [LF])) as [item|e'] eqn:El'.
    + apply (decode_ok_trailing_space self l [LF] item Hw) in El'.
      congruence.
    + cbn [bind]. split; discriminate.
Qed.

Lemma final_terminator_optional_witness :
  "1"%char <> LF /\ "1"%char <> CR /\
  _load_items cat_dog ((lit "a.jpg 0" ++ LF :: lit "b.jpg " ++ ["1"%char]) ++ [LF]) =
    Ok [(lit "a", labelled_item "a" "images/a.jpg" 0);
        (lit "b", labelled_item "b" "images/b.jpg" 1)] /\
  _load_items cat_dog (lit "a.jpg 0" ++ LF :: lit "b.jpg " ++ ["1"%char]) =
    Ok [(lit "a", labelled_item "a" "images/a.jpg" 0);
        (lit "b", labelled_item "b" "images/b.jpg" 1)].
Proof.
  assert (H1 : "1"%char <> LF) by discriminate.
  assert (H2 : "1"%char <> CR) by discriminate.
  split; [exact H1|]. split; [exact H2|]. split; [reflexivity|].
  apply (proj1 (final_terminator_optional cat_dog
                  (lit "a.jpg 0" ++ LF :: lit "b.jpg ") "1"%char _ H1 H2)).
  reflexivity.
Defined.

(** ** Label tokens *)

Lemma ints_first_bad (good rest : list str) (t : str) :
  Forall (fun g => py_int g <> None) good -> py_int t = None ->
  ints (good ++ t :: rest) = Raise (ValueError t).
Proof.
  intros Hg Ht. induction Hg as [|g good Hgood _ IH]; simpl.
  - now rewrite Ht.
  - destruct (py_int g); [|congruence]. now rewrite IH.
Qed.

(** X16.  When a token after the filename is not an integer literal, the
    line raises [ValueError] for the first such token, whatever the catalog
    is and whatever the other label ids are; this holds for a line without
    double quote and for a line with a quoted id. *)
Theorem value_error_first_token (self : ImagenetTxtExtractor)
    (token t : str) (good rest : list str) :
  Forall (fun g => py_int g <> None) good -> py_int t = None ->
  (forall line,
     count DQUOTE line = 0%nat -> split line = token :: good ++ t :: rest ->
     decode_line self line = Raise (ValueError t))
  /\
  (forall p0 p1 p2,
     contains DQUOTE p0 = false -> contains DQUOTE p1 = false ->
     contains DQUOTE p2 = false -> split p2 = token :: good ++ t :: rest ->
     decode_line self (p0 ++ DQUOTE :: p1 ++ DQUOTE :: p2) =
       Raise (ValueError t)).
Proof.
  intros Hg Ht. unfold decode_line. split.
  - intros line E0 Es. rewrite parse_line_unquoted, Es by assumption.
    cbn [getitem0 bind tl]. now rewrite ints_first_bad.
  - intros p0 p1 p2 H0 H1 H2 Es. rewrite parse_line_quoted, Es by assumption.
    cbn [getitem0 bind tl]. now rewrite ints_first_bad.
Qed.

Lemma value_error_first_token_witness :
  Forall (fun g => py_int g <> None) [lit "7"] /\ py_int (lit "1.5") = None /\
  count DQUOTE (lit "a.jpg 7 1.5 x") = 0%nat /\
  split (lit "a.jpg 7 1.5 x") = lit "a.jpg" :: [lit "7"] ++ lit "1.5" :: [lit "x"] /\
  decode_line cat_dog (lit "a.jpg 7 1.5 x") = Raise (ValueError (lit "1.5")).
Proof.
  assert (H : Forall (fun g => py_int g <> None) [lit "7"])
    by (repeat constructor; discriminate).
  split; [exact H|]. split; [reflexivity|]. split; [reflexivity|].
  split; [reflexivity|].
  apply (proj1 (value_error_first_token cat_dog (lit "a.jpg") (lit "1.5")
                  [lit "7"] [lit "x"] H eq_refl)); reflexivity.
Defined.

(** X17.  The decoder keeps the label ids of a line as a list: for a line
    made of a filename token and the decimal forms of label ids of the
    catalog, the item has one label annotation per id, in the order of the
    line, repeated ids included. *)
Theorem decode_keeps_label_list (self : ImagenetTxtExtractor)
    (token : str) (label_ids : list Z) :
  token <> [] -> no_space token = true -> contains DQUOTE token = false ->
  Forall (in_catalog self) label_ids ->
  decode_line self
    (token ++ SPACE :: join [SPACE] (map py_str label_ids) ++ [LF]) =
    Ok {| id := fst (splitext token); subset := _subset self;
          image := path_join (image_dir self) token;
          annotations := map Label label_ids |}.
Proof.
  intros Hne Hns Hq Hl. unfold decode_line.
  rewrite parse_line_unquoted.
  - rewrite split_token_labels by assumption.
    cbn [getitem0 bind tl]. rewrite ints_py_str. cbn [bind].
    now rewrite check_labels_ok.
  - apply contains_count, contains_false_In. intros Hin.
    apply in_app_iff in Hin as [Hin|Hin].
    + apply contains_false_In in Hq. tauto.
    + apply labels_not_quote in Hin; [assumption|].
      intros [E|[]]. discriminate.
Qed.

Lemma decode_keeps_label_list_witness :
  lit "a.jpg" <> [] /\ no_space (lit "a.jpg") = true /\
  contains DQUOTE (lit "a.jpg") = false /\
  Forall (in_catalog cat_dog) [1; 0; 1; 1] /\
  decode_line cat_dog (lit "a.jpg 1 0 1 1" ++ [LF]) =
    Ok {| id := lit "a"; subset := lit "train"; image := lit "images/a.jpg";
          annotations := [Label 1; Label 0; Label 1; Label 1] |}.
Proof.
  assert (H1 : lit "a.jpg" <> []) by discriminate.
  assert (H4 : Forall (in_catalog cat_dog) [1; 0; 1; 1])
    by (repeat constructor; unfold in_catalog; simpl; lia).
  split; [exact H1|]. split; [reflexivity|]. split; [reflexivity|].
  split; [exact H4|].
  exact (decode_keeps_label_list cat_dog (lit "a.jpg") [1; 0; 1; 1]
           H1 eq_refl eq_refl H4).
Defined.
